(** * SqueezeNet v1.0 with simple bypass: the graph builder of
    [zoo/squeezenet/squeezenet_bypass_c.py]

    The Python class [SqueezeNetBypass] wires layers of the host
    deep-learning library into a symbolic graph.  The development below
    embeds

    - the symbolic tensors the layer calls return ([tensor]: a tensor is
      the layer that produced it together with the tensors it was called
      on, which is the history the host library records),
    - the Python objects the builder reads and mutates (the list objects
      that hold group configurations live in a store, because
      [learner] pops from the list it is handed),
    - the methods [stem], [learner], [group], [fire_block], [classifier]
      and the constructor, in a small state-and-exception monad,
    - the shape rules of the host library's layers ([shape_of]), used for
      the statements about channel counts and resolutions.

    A layer call is embedded as the node it adds to the graph.  The host
    library checks every call when it is made and raises where it refuses
    one: [shape_of t] is [None] where the library refuses a call on the
    way to [t], and [learner] and the constructor raise there.  Layer
    names, weights and everything else the library attaches to a layer
    object play no part in the source and are not represented. *)

From Stdlib Require Import ZArith QArith List Lia.
From stdpp Require Import base decidable option list gmap strings fin_maps.

Local Open Scope string_scope.
Local Open Scope list_scope.
Local Open Scope Z_scope.

(** ** Python values and objects *)

(** Addresses of list objects. *)
Abbreviation loc := positive.

(** A block spec is a dict with the keys ['n_filters'] and ['bypass'];
    [fire_block] receives it unpacked as keyword arguments. *)
Record block_spec := BlockSpec { n_filters : Z; bypass : bool }.

(** A group spec is the list of its block specs. *)
Definition group_spec := list block_spec.

(** The values that occur as keyword arguments and class attributes. *)
Inductive pyval :=
| PNone
| PFloat (r : Q)
| PStr (s : string)
| PList (l : loc).

(** The store: every list object that holds a groups configuration.  The
    inner lists and the dicts are never written to by the source, so they
    are kept as values. *)
Abbreviation store := (gmap loc (list group_spec)).

Inductive exn :=
| KeyError (key : string)
| AttributeError (attr : string)
| IndexError
| TypeError
| ValueError.

Inductive result (A : Type) :=
| Ok (a : A)
| Raise (e : exn).
Arguments Ok {A} a.
Arguments Raise {A} e.

(** A computation reads and writes the store and either returns or
    raises; the writes made before an exception are kept. *)
Definition M (A : Type) := store -> result A * store.

Definition ret {A} (a : A) : M A := fun s => (Ok a, s).
Definition raise {A} (e : exn) : M A := fun s => (Raise e, s).
Definition bind {A B} (m : M A) (k : A -> M B) : M B :=
  fun s => match m s with
           | (Ok a, s') => k a s'
           | (Raise e, s') => (Raise e, s')
           end.
Definition lift {A} (r : result A) : M A := fun s => (r, s).

(** The same for computations that leave the store alone. *)
Definition and_then {A B} (r : result A) (k : A -> result B) : result B :=
  match r with
  | Ok a => k a
  | Raise e => Raise e
  end.

Notation "'do' x <- m ; k" := (bind m (fun x => k))
  (at level 10, x name, m at level 100, k at level 200).

#[global] Instance block_spec_eq_dec : EqDecision block_spec.
Proof. solve_decision. Defined.

#[global] Instance Q_eq_dec : EqDecision Q.
Proof. solve_decision. Defined.

#[global] Instance pyval_eq_dec : EqDecision pyval.
Proof. solve_decision. Defined.

#[global] Instance exn_eq_dec : EqDecision exn.
Proof. solve_decision. Defined.


(** ** Symbolic tensors *)

Inductive padding := same | valid.

#[global] Instance padding_eq_dec : EqDecision padding.
Proof. solve_decision. Defined.

(** One constructor per layer class the source imports; the last argument
    is what the layer object is called on.  [Concatenate] and [Add] are
    always called on a two-element list.  An integer [pool_size] stands
    for the square window, so [MaxPooling2D(3, strides=2)] and
    [MaxPooling2D((3, 3), strides=2)] are the same layer. *)
Inductive tensor :=
| Input (shape : list Z)
| Conv2D (filters : Z) (kernel_size : Z * Z) (strides : Z) (pad : padding)
         (activation : string) (kernel_initializer : string) (x : tensor)
| MaxPooling2D (pool_size : Z * Z) (strides : Z) (x : tensor)
| Concatenate (x1 x2 : tensor)
| Add (x1 x2 : tensor)
| Dropout (rate : pyval) (x : tensor)
| GlobalAveragePooling2D (x : tensor)
| Activation (fn : string) (x : tensor).

#[global] Instance tensor_eq_dec : EqDecision tensor.
Proof. solve_decision. Defined.

(** [Model(inputs, outputs)]. *)
Record Model := mkModel { inputs : tensor; outputs : tensor }.

#[global] Instance Model_eq_dec : EqDecision Model.
Proof. solve_decision. Defined.


(** ** Shape rules of the host library *)

(** The output size along one spatial axis of a convolution or a pooling
    with window [k] and stride [s] over [n] entries. *)
Definition out_size (pad : padding) (n k s : Z) : option Z :=
  if (0 <? k) && (0 <? s) then
    match pad with
    | same => Some ((n + s - 1) / s)
    | valid => if k <=? n then Some ((n - k) / s + 1) else None
    end
  else None.

(** A dropout rate is a number between 0 and 1. *)
Definition rate_ok (rate : pyval) : bool :=
  match rate with
  | PFloat r => Qle_bool 0 r && Qle_bool r 1
  | _ => false
  end.

(** The shape of an element-wise merge such as [Add], as the library
    computes it from the shapes of two operands: the axes are matched
    from the last one, an axis of size 1 is stretched to the size of the
    other operand's axis, any other two sizes have to be equal, and the
    leading axes of the longer shape are kept. *)
Fixpoint merge_axes (s1 s2 : list Z) : option (list Z) :=
  match s1, s2 with
  | [], [] => Some []
  | i :: s1, j :: s2 =>
      match merge_axes s1 s2 with
      | Some s =>
          if i =? 1 then Some (j :: s)
          else if j =? 1 then Some (i :: s)
          else if i =? j then Some (i :: s)
          else None
      | None => None
      end
  | _, _ => None
  end.

Definition merge_shape (s1 s2 : list Z) : option (list Z) :=
  let (s1, s2) :=
    if (length s1 <? length s2)%nat then (s2, s1) else (s1, s2) in
  match s2 with
  | [] => Some s1
  | _ =>
      let k := (length s1 - length s2)%nat in
      match merge_axes (drop k s1) s2 with
      | Some s => Some (take k s1 ++ s)
      | None => None
      end
  end.

(** The output shape the host library computes for a tensor, batch axis
    left out; [None] where the library refuses a layer call on the way.
    Sizes are integers without bound: what a machine can allocate is no
    part of these rules. *)
Fixpoint shape_of (t : tensor) : option (list Z) :=
  match t with
  | Input shape => Some shape
  | Conv2D filters (kh, kw) strides pad _ _ x =>
      match shape_of x with
      | Some [h; w; _] =>
          if 0 <? filters then
            match out_size pad h kh strides, out_size pad w kw strides with
            | Some h', Some w' => Some [h'; w'; filters]
            | _, _ => None
            end
          else None
      | _ => None
      end
  | MaxPooling2D (ph, pw) strides x =>
      match shape_of x with
      | Some [h; w; c] =>
          match out_size valid h ph strides, out_size valid w pw strides with
          | Some h', Some w' => Some [h'; w'; c]
          | _, _ => None
          end
      | _ => None
      end
  | Concatenate x1 x2 =>
      match shape_of x1, shape_of x2 with
      | Some [h1; w1; c1], Some [h2; w2; c2] =>
          if (h1 =? h2) && (w1 =? w2) then Some [h1; w1; c1 + c2] else None
      | _, _ => None
      end
  | Add x1 x2 =>
      match shape_of x1, shape_of x2 with
      | Some s1, Some s2 => merge_shape s1 s2
      | _, _ => None
      end
  | Dropout rate x => if rate_ok rate then shape_of x else None
  | GlobalAveragePooling2D x =>
      match shape_of x with
      | Some [_; _; c] => Some [c]
      | _ => None
      end
  | Activation _ x => shape_of x
  end.

(** The number of channels: the size of the last axis. *)
Definition channels (t : tensor) : option Z :=
  match shape_of t with
  | Some shape => last shape
  | None => None
  end.


(** What the host library raises when it refuses a layer call: a
    [ValueError] for sizes that do not fit and for numbers out of range,
    a [TypeError] for a dropout rate that is no number. *)
Definition refusal (t : tensor) : exn :=
  match t with
  | Dropout (PFloat _) _ => ValueError
  | Dropout _ _ => TypeError
  | _ => ValueError
  end.

(** The layer calls that end in [t], once the calls before them have been
    accepted: they return [t] or raise. *)
Definition accepted (t : tensor) : result tensor :=
  match shape_of t with
  | Some _ => Ok t
  | None => Raise (refusal t)
  end.

(** ** The class *)

(** The builders [stem], [fire_block], [group] and [classifier] are
    embedded as the graph they wire; [learner] and [__init__], which
    call them, raise where the library refuses one of their layer
    calls. *)

Module SqueezeNetBypass.

(** The list literal bound to the class attribute [groups]. *)
Definition groups : list group_spec :=
  [ [ BlockSpec 16 false; BlockSpec 16 true; BlockSpec 32 false ];
    [ BlockSpec 32 true; BlockSpec 48 false; BlockSpec 48 true;
      BlockSpec 64 false ];
    [ BlockSpec 64 true ] ].

(** The address of the list object that literal creates. *)
Definition groups_ref : loc := 1%positive.

Definition init_weights : string := "glorot_uniform".

(** The class namespace: [groups], [init_weights] and [_model] are the
    only attributes the class body binds. *)
Definition class_dict : gmap string pyval :=
  {[ "groups" := PList groups_ref;
     "init_weights" := PStr init_weights;
     "_model" := PNone ]}.

(** [SqueezeNetBypass.<name>]. *)
Definition class_getattr (name : string) : result pyval :=
  match class_dict !! name with
  | Some v => Ok v
  | None => Raise (AttributeError name)
  end.

(** The store when the class statement has run. *)
Definition store_at_import : store := {[ groups_ref := groups ]}.

(** An instance holds [_model]; [None] is the class-level default. *)
Record instance := mkInstance { _model : option Model }.

Definition model (self : instance) : option Model := _model self.

Definition set_model (self : instance) (m : option Model) : instance :=
  mkInstance m.

(** *** [stem] *)
Definition stem (inputs : tensor) : tensor :=
  let x := Conv2D 96 (7, 7) 2 same "relu" init_weights inputs in
  let x := MaxPooling2D (3, 3) 2 x in
  x.

(** *** [fire_block] *)
Definition fire_block (x : tensor) (init_weights : option string)
    (metaparameters : block_spec) : tensor :=
  let n_filters := n_filters metaparameters in
  let bypass := bypass metaparameters in
  let init_weights :=
    match init_weights with
    | None => SqueezeNetBypass.init_weights
    | Some w => w
    end in
  let shortcut := x in
  let squeeze := Conv2D n_filters (1, 1) 1 same "relu" init_weights x in
  let expand1x1 :=
    Conv2D (n_filters * 4) (1, 1) 1 same "relu" init_weights squeeze in
  let expand3x3 :=
    Conv2D (n_filters * 4) (3, 3) 1 same "relu" init_weights squeeze in
  let x := Concatenate expand1x1 expand3x3 in
  if bypass then Add x shortcut else x.

(** *** [group] *)
Definition group (x : tensor) (init_weights : option string)
    (blocks : group_spec) : tensor :=
  let init_weights :=
    match init_weights with
    | None => SqueezeNetBypass.init_weights
    | Some w => w
    end in
  let x :=
    fold_left (fun x block => fire_block x (Some init_weights) block)
              blocks x in
  MaxPooling2D (3, 3) 2 x.

(** *** [classifier] *)
Definition classifier (x : tensor) (n_classes : Z) : tensor :=
  let x := Conv2D n_classes (1, 1) 1 same "relu" init_weights x in
  let x := GlobalAveragePooling2D x in
  let x := Activation "softmax" x in
  x.

(** *** [learner] *)

(** [metaparameters[key]]. *)
Definition getitem (metaparameters : gmap string pyval) (key : string)
    : result pyval :=
  match metaparameters !! key with
  | Some v => Ok v
  | None => Raise (KeyError key)
  end.

(** [groups.pop()]: removes the last item of the list object and
    returns it; only list objects have the method. *)
Definition pop (groups : pyval) : M group_spec :=
  match groups with
  | PList l => fun s =>
      match s !! l with
      | Some items =>
          match last items with
          | Some item => (Ok item, <[l := removelast items]> s)
          | None => (Raise IndexError, s)
          end
      | None => (Raise TypeError, s)
      end
  | _ => raise (AttributeError "pop")
  end.

(** The items [for group in groups] runs over. *)
Definition iter (groups : pyval) : M (list group_spec) :=
  match groups with
  | PList l => fun s =>
      match s !! l with
      | Some items => (Ok items, s)
      | None => (Raise TypeError, s)
      end
  | _ => raise TypeError
  end.

(** [last[0]]. *)
Definition first (last : group_spec) : result block_spec :=
  match last with
  | block :: _ => Ok block
  | [] => Raise IndexError
  end.

(** The loop [for group in groups: x = group(x, blocks=group)]: it stops
    at the first group with a layer call the library refuses. *)
Fixpoint for_groups (x : tensor) (items : list group_spec) : result tensor :=
  match items with
  | [] => Ok x
  | blocks :: items =>
      and_then (accepted (SqueezeNetBypass.group x None blocks))
        (fun x => for_groups x items)
  end.

Definition learner (x : tensor) (metaparameters : gmap string pyval)
    : M tensor :=
  do groups <- lift (getitem metaparameters "groups");
  do dropout <-
    match metaparameters !! "dropout" with
    | Some v => ret v
    | None => lift (class_getattr "dropout")
    end;
  do last <- pop groups;
  do items <- iter groups;
  do x <- lift (for_groups x items);
  do block <- lift (first last);
  do x <- lift (accepted (fire_block x None block));
  do x <- lift (accepted (Dropout dropout x));
  ret x.

(** *** [__init__] *)
Definition __init__ (groups dropout : pyval) (input_shape : list Z)
    (n_classes : Z) : M instance :=
  do groups <-
    match groups with
    | PNone => lift (class_getattr "groups")
    | _ => ret groups
    end;
  let inputs := Input [224; 224; 3] in
  do x <- lift (accepted (stem inputs));
  do x <- learner x {[ "groups" := groups; "dropout" := dropout ]};
  do outputs <- lift (accepted (classifier x n_classes));
  ret (mkInstance (Some (mkModel inputs outputs))).

End SqueezeNetBypass.

(** ** Loops and arguments of the builders *)

(** What the [for] loop of [group] leaves in [x]. *)
Definition blocks_of (x : tensor) (w : option string) (blocks : group_spec)
    : tensor :=
  fold_left (fun x block => SqueezeNetBypass.fire_block x w block) blocks x.

(** What the [for] loop of [learner] leaves in [x]. *)
Definition groups_of (x : tensor) (items : list group_spec) : tensor :=
  fold_left (fun x blocks => SqueezeNetBypass.group x None blocks) items x.

(** The list object a [groups] argument denotes: the class attribute
    for [None], the argument itself otherwise. *)
Definition groups_arg (groups : pyval) : pyval :=
  match groups with
  | PNone => PList SqueezeNetBypass.groups_ref
  | _ => groups
  end.


(** The graph the constructor wires from the groups [items] that stay in
    the list and the first block [b] of the group it popped. *)
Definition graph_of (items : list group_spec) (b : block_spec)
    (dropout : pyval) (n_classes : Z) : tensor :=
  SqueezeNetBypass.classifier
    (Dropout dropout
       (SqueezeNetBypass.fire_block
          (groups_of (SqueezeNetBypass.stem (Input [224; 224; 3])) items)
          None b))
    n_classes.

(** What a construction returns or raises once it has popped the group
    [last] and the groups [items] stay in the list. *)
Definition built (items : list group_spec) (last : group_spec)
    (dropout : pyval) (n_classes : Z) : result SqueezeNetBypass.instance :=
  and_then
    (SqueezeNetBypass.for_groups
       (SqueezeNetBypass.stem (Input [224; 224; 3])) items) (fun x =>
  and_then (SqueezeNetBypass.first last) (fun block =>
  and_then (accepted (SqueezeNetBypass.fire_block x None block)) (fun x =>
  and_then (accepted (Dropout dropout x)) (fun x =>
  and_then (accepted (SqueezeNetBypass.classifier x n_classes))
    (fun outputs =>
  Ok (SqueezeNetBypass.mkInstance
        (Some (mkModel (Input [224; 224; 3]) outputs)))))))).

(** ** Reading a graph back *)

(** The fire blocks on the path from a tensor back to the input, first
    block first.  A node counts as a fire block when it is exactly what
    [fire_block] builds from the squeeze layer's input: both expand
    branches on one squeeze layer, and for a bypass block the shortcut
    taken from the squeeze layer's input. *)
Fixpoint fire_blocks (t : tensor) : list block_spec :=
  match t with
  | Input _ => []
  | Conv2D _ _ _ _ _ _ x => fire_blocks x
  | MaxPooling2D _ _ x => fire_blocks x
  | Dropout _ x => fire_blocks x
  | GlobalAveragePooling2D x => fire_blocks x
  | Activation _ x => fire_blocks x
  | Concatenate (Conv2D _ _ _ _ _ w (Conv2D n _ _ _ _ _ x)) _ =>
      if decide (t = SqueezeNetBypass.fire_block x (Some w) (BlockSpec n false))
      then fire_blocks x ++ [BlockSpec n false]
      else []
  | Add (Concatenate (Conv2D _ _ _ _ _ w (Conv2D n _ _ _ _ _ x)) _) _ =>
      if decide (t = SqueezeNetBypass.fire_block x (Some w) (BlockSpec n true))
      then fire_blocks x ++ [BlockSpec n true]
      else []
  | Concatenate _ _ => []
  | Add _ _ => []
  end.

(** The two expand branches of a fire block's output. *)
Definition expand_branches (t : tensor) : option (tensor * tensor) :=
  match t with
  | Concatenate e1 e3 => Some (e1, e3)
  | Add (Concatenate e1 e3) _ => Some (e1, e3)
  | _ => None
  end.

(** The [filters] argument of a convolution. *)
Definition filters_of (t : tensor) : option Z :=
  match t with
  | Conv2D filters _ _ _ _ _ _ => Some filters
  | _ => None
  end.

(** [occurs a t]: the tensor [a] is [t] or one of the tensors [t] was
    computed from. *)
Inductive occurs (a : tensor) : tensor -> Prop :=
| occurs_here : occurs a a
| occurs_Conv2D f k st p act i x :
    occurs a x -> occurs a (Conv2D f k st p act i x)
| occurs_MaxPooling2D k st x :
    occurs a x -> occurs a (MaxPooling2D k st x)
| occurs_Concatenate_l x1 x2 : occurs a x1 -> occurs a (Concatenate x1 x2)
| occurs_Concatenate_r x1 x2 : occurs a x2 -> occurs a (Concatenate x1 x2)
| occurs_Add_l x1 x2 : occurs a x1 -> occurs a (Add x1 x2)
| occurs_Add_r x1 x2 : occurs a x2 -> occurs a (Add x1 x2)
| occurs_Dropout r x : occurs a x -> occurs a (Dropout r x)
| occurs_GlobalAveragePooling2D x :
    occurs a x -> occurs a (GlobalAveragePooling2D x)
| occurs_Activation fn x : occurs a x -> occurs a (Activation fn x).

(** Whether the two operands of every [Add] in a graph have one and the
    same shape. *)
Fixpoint adds_agree (t : tensor) : bool :=
  match t with
  | Input _ => true
  | Conv2D _ _ _ _ _ _ x => adds_agree x
  | MaxPooling2D _ _ x => adds_agree x
  | Concatenate x1 x2 => adds_agree x1 && adds_agree x2
  | Add x1 x2 =>
      match shape_of x1, shape_of x2 with
      | Some s1, Some s2 =>
          bool_decide (s1 = s2) && adds_agree x1 && adds_agree x2
      | _, _ => false
      end
  | Dropout _ x => adds_agree x
  | GlobalAveragePooling2D x => adds_agree x
  | Activation _ x => adds_agree x
  end.


(** ** Bookkeeping of channels, sizes and layers *)

(** What the host library asks of one fire block on an input with [c]
    channels: a positive number of filters for its convolutions and, for
    a bypass block, an input with as many channels as the concatenation
    has, [8 * n_filters], or with one channel, which [Add] stretches. *)
Definition block_fits (c : Z) (b : block_spec) : bool :=
  (0 <? n_filters b)
  && (negb (bypass b) || (c =? 8 * n_filters b) || (c =? 1)).

(** The number of channels after a run of fire blocks on an input with
    [c] channels; [None] when one of the blocks does not fit. *)
Fixpoint channels_after (c : Z) (blocks : list block_spec) : option Z :=
  match blocks with
  | [] => Some c
  | b :: blocks =>
      if block_fits c b then channels_after (8 * n_filters b) blocks
      else None
  end.

(** Whether every bypass block of a run of fire blocks comes right after
    a block with the same [n_filters]; [prev] is the [n_filters] of the
    block before the run, if there is one. *)
Fixpoint bypass_after_equal (prev : option Z) (blocks : list block_spec)
    : bool :=
  match blocks with
  | [] => true
  | b :: blocks =>
      (negb (bypass b)
       || match prev with
          | Some n => n =? n_filters b
          | None => false
          end)
      && bypass_after_equal (Some (n_filters b)) blocks
  end.

(** The size along one spatial axis after [k] pooling layers of [group];
    [None] when one of them is handed fewer than 3 entries. *)
Fixpoint pooled (k : nat) (h : Z) : option Z :=
  match k with
  | O => Some h
  | S k =>
      match out_size valid h 3 2 with
      | Some h' => pooled k h'
      | None => None
      end
  end.

(** The number of pooling layers between a tensor and the input.  The
    branches of a [Concatenate] and of an [Add] start from one tensor in
    the graphs of the source; the walk enters a [Concatenate] through
    its first branch and an [Add] through its second operand, the
    shortcut. *)
Fixpoint poolings (t : tensor) : nat :=
  match t with
  | Input _ => O
  | MaxPooling2D _ _ x => S (poolings x)
  | Conv2D _ _ _ _ _ _ x => poolings x
  | Concatenate x1 _ => poolings x1
  | Add _ x2 => poolings x2
  | Dropout _ x => poolings x
  | GlobalAveragePooling2D x => poolings x
  | Activation _ x => poolings x
  end.

(** The rates of the dropout layers on the same walk, first layer
    first. *)
Fixpoint dropouts (t : tensor) : list pyval :=
  match t with
  | Input _ => []
  | Dropout rate x => dropouts x ++ [rate]
  | MaxPooling2D _ _ x => dropouts x
  | Conv2D _ _ _ _ _ _ x => dropouts x
  | Concatenate x1 _ => dropouts x1
  | Add _ x2 => dropouts x2
  | GlobalAveragePooling2D x => dropouts x
  | Activation _ x => dropouts x
  end.

(** [k] constructions with the same arguments, one after the other:
    what each of them returned or raised, and the store they leave. *)
Fixpoint constructions (k : nat) (groups dropout : pyval)
    (input_shape : list Z) (n_classes : Z) (s : gmap loc (list group_spec))
    : list (result SqueezeNetBypass.instance) * gmap loc (list group_spec) :=
  match k with
  | O => ([], s)
  | S k =>
      let (r, s1) :=
        SqueezeNetBypass.__init__ groups dropout input_shape n_classes s in
      let (rs, s2) :=
        constructions k groups dropout input_shape n_classes s1 in
      (r :: rs, s2)
  end.

(** Whether a run returned. *)
Definition returned {A} (r : result A) : bool :=
  match r with
  | Ok _ => true
  | Raise _ => false
  end.

(** The conditions under which the host library accepts every layer call
    of a construction that wires the groups [items] and then the block
    [b]: at most four pooled groups after the 55 x 55 output of the
    stem, every block fitting the channels it is handed, 96 after the
    stem, a dropout rate between 0 and 1 and a positive number of
    classes. *)
Definition library_accepts (items : list group_spec) (b : block_spec)
    (dropout : pyval) (n_classes : Z) : Prop :=
  (length items <= 4)%nat /\
  is_Some (channels_after 96 (concat items ++ [b])) /\
  rate_ok dropout = true /\
  0 < n_classes.

(** ** The builders on graphs *)

Section Builders.

Import SqueezeNetBypass.

Implicit Types (x : tensor) (w : option string) (b : block_spec)
  (blocks : group_spec) (items : list group_spec).

Lemma fire_block_weights x w b :
  fire_block x w b
  = fire_block x (Some (default init_weights w)) b.
Proof. by destruct w. Qed.

Lemma fire_blocks_fire_block x w b :
  fire_blocks (fire_block x w b) = fire_blocks x ++ [b].
Proof.
  rewrite fire_block_weights.
  destruct b as [n [|]]; unfold fire_block; cbn [n_filters bypass fire_blocks];
    (destruct (decide _) as [_|Hne]; [done|]);
    exfalso; apply Hne; reflexivity.
Qed.

Lemma fire_blocks_blocks_of blocks : forall x w,
  fire_blocks (blocks_of x w blocks) = fire_blocks x ++ blocks.
Proof.
  induction blocks as [|b blocks IH]; intros x w; cbn.
  - by rewrite app_nil_r.
  - unfold blocks_of in IH. rewrite IH, fire_blocks_fire_block.
    by rewrite <- app_assoc.
Qed.

Lemma group_unfold x w blocks :
  group x w blocks
  = MaxPooling2D (3, 3) 2 (blocks_of x (Some (default init_weights w)) blocks).
Proof. by destruct w. Qed.

Lemma fire_blocks_group x w blocks :
  fire_blocks (group x w blocks) = fire_blocks x ++ blocks.
Proof. rewrite group_unfold. cbn. apply fire_blocks_blocks_of. Qed.

Lemma fire_blocks_groups_of items : forall x,
  fire_blocks (groups_of x items) = fire_blocks x ++ concat items.
Proof.
  induction items as [|blocks items IH]; intros x; cbn.
  - by rewrite app_nil_r.
  - unfold groups_of in IH. rewrite IH, fire_blocks_group.
    by rewrite <- app_assoc.
Qed.

(** *** Running [learner] and the constructor *)

Implicit Types (s : store) (l : loc) (mp : gmap string pyval).

Lemma pop_run l items (g : group_spec) s :
  s !! l = Some (items ++ [g]) ->
  pop (PList l) s = (Ok g, <[l := items]> s).
Proof.
  intros Hl. unfold pop. rewrite Hl, last_snoc.
  by rewrite removelast_last.
Qed.

Lemma pop_empty l s :
  s !! l = Some [] -> pop (PList l) s = (Raise IndexError, s).
Proof. intros Hl. unfold pop. by rewrite Hl. Qed.

Lemma learner_run x mp l d items (g : group_spec) s :
  mp !! "groups" = Some (PList l) ->
  mp !! "dropout" = Some d ->
  s !! l = Some (items ++ [g]) ->
  learner x mp s
  = (and_then (for_groups x items) (fun x1 =>
     and_then (first g) (fun b =>
     and_then (accepted (fire_block x1 None b)) (fun x2 =>
     accepted (Dropout d x2)))),
     <[l := items]> s).
Proof.
  intros Hg Hd Hl. unfold learner, bind, lift, getitem.
  rewrite Hg, Hd. unfold ret. rewrite (pop_run _ _ _ _ Hl).
  unfold iter. rewrite lookup_insert_eq.
  destruct (for_groups x items) as [x1|e]; [|done]. cbn [and_then].
  destruct (first g) as [b|e]; [|done]. cbn [and_then].
  destruct (accepted (fire_block x1 None b)) as [x2|e]; [|done].
  cbn [and_then]. by destruct (accepted (Dropout d x2)).
Qed.

Lemma learner_empty x mp l d s :
  mp !! "groups" = Some (PList l) ->
  mp !! "dropout" = Some d ->
  s !! l = Some [] ->
  learner x mp s = (Raise IndexError, s).
Proof.
  intros Hg Hd Hl. unfold learner, bind, lift, getitem.
  rewrite Hg, Hd. unfold ret. by rewrite (pop_empty _ _ Hl).
Qed.

(** The keyword arguments the constructor hands to [learner]. *)
Lemma kwargs_groups (g d : pyval) :
  ({[ "groups" := g; "dropout" := d ]} : gmap string pyval) !! "groups"
  = Some g.
Proof. by rewrite lookup_insert_eq. Qed.

Lemma kwargs_dropout (g d : pyval) :
  ({[ "groups" := g; "dropout" := d ]} : gmap string pyval) !! "dropout"
  = Some d.
Proof. rewrite lookup_insert_ne by done. by rewrite lookup_singleton_eq. Qed.

Lemma class_groups : class_getattr "groups" = Ok (PList groups_ref).
Proof. reflexivity. Qed.

Lemma class_dropout : class_getattr "dropout" = Raise (AttributeError "dropout").
Proof. reflexivity. Qed.

(** The library accepts the stem on the input layer of the constructor. *)
Lemma stem_accepted :
  accepted (stem (Input [224; 224; 3])) = Ok (stem (Input [224; 224; 3])).
Proof. reflexivity. Qed.

Lemma init_unfold groups d shape n s :
  __init__ groups d shape n s
  = match learner (stem (Input [224; 224; 3]))
            {[ "groups" := groups_arg groups; "dropout" := d ]} s with
    | (Ok x, s') =>
        (and_then (accepted (classifier x n)) (fun outputs =>
           Ok (mkInstance
                 (Some (mkModel (Input [224; 224; 3]) outputs)))), s')
    | (Raise e, s') => (Raise e, s')
    end.
Proof.
  unfold __init__, bind, ret, lift. rewrite stem_accepted.
  destruct groups; rewrite ?class_groups; cbn [groups_arg];
    match goal with
    | |- context [learner ?x ?mp ?s0] =>
        destruct (learner x mp s0) as [[x1|?] ?]
    end; try reflexivity;
    by destruct (accepted (classifier x1 n)).
Qed.

Lemma init_run groups l d shape n items (g : group_spec) s :
  groups_arg groups = PList l ->
  s !! l = Some (items ++ [g]) ->
  __init__ groups d shape n s = (built items g d n, <[l := items]> s).
Proof.
  intros Hg Hl. rewrite init_unfold, Hg.
  rewrite (learner_run _ _ l d items g s
             (kwargs_groups _ _) (kwargs_dropout _ _) Hl).
  unfold built.
  destruct (for_groups _ items) as [x1|e]; [|done]. cbn [and_then].
  destruct (first g) as [b|e]; [|done]. cbn [and_then].
  destruct (accepted (fire_block x1 None b)) as [x2|e]; [|done].
  cbn [and_then]. by destruct (accepted (Dropout d x2)).
Qed.

Lemma init_empty groups l d shape n s :
  groups_arg groups = PList l ->
  s !! l = Some [] ->
  __init__ groups d shape n s = (Raise IndexError, s).
Proof.
  intros Hg Hl. rewrite init_unfold, Hg.
  by rewrite (learner_empty _ _ l d s
                (kwargs_groups _ _) (kwargs_dropout _ _) Hl).
Qed.

(** What the constructor returns depends on the store only through the
    items of the list it is handed. *)
Lemma init_result_of_items l1 l2 cfg d shape n s1 s2 :
  s1 !! l1 = Some cfg -> s2 !! l2 = Some cfg ->
  fst (__init__ (PList l1) d shape n s1)
  = fst (__init__ (PList l2) d shape n s2).
Proof.
  intros H1 H2. destruct cfg as [|g items _] using rev_ind.
  - by rewrite (init_empty (PList l1) l1 d shape n s1 eq_refl H1),
               (init_empty (PList l2) l2 d shape n s2 eq_refl H2).
  - by rewrite (init_run (PList l1) l1 d shape n items g s1 eq_refl H1),
               (init_run (PList l2) l2 d shape n items g s2 eq_refl H2).
Qed.

(** The constructor writes to no list but the one it is handed. *)
Lemma init_frame l l' cfg d shape n s :
  l <> l' -> s !! l = Some cfg ->
  snd (__init__ (PList l) d shape n s) !! l' = s !! l'.
Proof.
  intros Hne Hl. destruct cfg as [|g items _] using rev_ind.
  - by rewrite (init_empty (PList l) l d shape n s eq_refl Hl).
  - rewrite (init_run (PList l) l d shape n items g s eq_refl Hl).
    cbn [snd]. by rewrite lookup_insert_ne.
Qed.

End Builders.

(** ** Shapes of the builders' outputs *)

Section Shapes.

Import SqueezeNetBypass.

Implicit Types (x : tensor) (w : option string) (h wd c n : Z).

Lemma out_size_same_1 n k : 0 < k -> out_size same n k 1 = Some n.
Proof.
  intros Hk. unfold out_size.
  destruct (Z.ltb_spec 0 k); [|lia]. cbn.
  f_equal. rewrite Z.div_1_r. lia.
Qed.

Lemma out_size_pool n r :
  out_size valid n 3 2 = Some r <-> 3 <= n /\ r = (n - 3) / 2 + 1.
Proof.
  unfold out_size. cbn. destruct (Z.leb_spec 3 n); split.
  - intros [= <-]. done.
  - intros [_ ->]. done.
  - done.
  - lia.
Qed.

Lemma pool_shrinks n : 3 <= n -> 0 < (n - 3) / 2 + 1 < n.
Proof.
  intros Hn. split.
  - pose proof (Z.div_pos (n - 3) 2). lia.
  - assert ((n - 3) / 2 <= n - 3) by (apply Z.div_le_upper_bound; lia).
    lia.
Qed.

(** The pooling layer of [stem] and [group]. *)
Lemma shape_pool (y : tensor) :
  shape_of (MaxPooling2D (3, 3) 2 y)
  = match shape_of y with
    | Some [h; wd; c] =>
        match out_size valid h 3 2, out_size valid wd 3 2 with
        | Some h', Some wd' => Some [h'; wd'; c]
        | _, _ => None
        end
    | _ => None
    end.
Proof. reflexivity. Qed.

(** A convolution of the source: stride 1, padding ['same']. *)
Lemma shape_conv_same x f k1 k2 a i h wd c :
  shape_of x = Some [h; wd; c] -> 0 < f -> 0 < k1 -> 0 < k2 ->
  shape_of (Conv2D f (k1, k2) 1 same a i x) = Some [h; wd; f].
Proof.
  intros Hx Hf Hk1 Hk2. cbn [shape_of]. rewrite Hx.
  destruct (Z.ltb_spec 0 f); [|lia].
  by rewrite !out_size_same_1.
Qed.

Lemma shape_concat (a b : tensor) h wd c1 c2 :
  shape_of a = Some [h; wd; c1] -> shape_of b = Some [h; wd; c2] ->
  shape_of (Concatenate a b) = Some [h; wd; c1 + c2].
Proof.
  intros Ha Hb. change (shape_of (Concatenate a b)) with
    (match shape_of a, shape_of b with
     | Some [h1; w1; c1], Some [h2; w2; c2] =>
         if (h1 =? h2) && (w1 =? w2) then Some [h1; w1; c1 + c2] else None
     | _, _ => None
     end).
  by rewrite Ha, Hb, !Z.eqb_refl.
Qed.

(** The concatenation of the two expand branches. *)
Lemma shape_fire_block_plain x w n h wd c :
  shape_of x = Some [h; wd; c] -> 0 < n ->
  shape_of (fire_block x w (BlockSpec n false)) = Some [h; wd; 8 * n].
Proof.
  intros Hx Hn. unfold fire_block. cbn [n_filters bypass].
  set (i := match w with None => init_weights | Some w0 => w0 end).
  pose proof (shape_conv_same x n 1 1 "relu" i h wd c Hx Hn
                ltac:(lia) ltac:(lia)) as Hs.
  rewrite (shape_concat _ _ h wd (n * 4) (n * 4)).
  - by replace (n * 4 + n * 4) with (8 * n) by lia.
  - apply (shape_conv_same _ _ 1 1 _ _ h wd n); [exact Hs|lia..].
  - apply (shape_conv_same _ _ 3 3 _ _ h wd n); [exact Hs|lia..].
Qed.

Lemma shape_classifier x n h wd c :
  shape_of x = Some [h; wd; c] -> 0 < n ->
  shape_of (classifier x n) = Some [n].
Proof.
  intros Hx Hn. unfold classifier.
  pose proof (shape_conv_same x n 1 1 "relu" init_weights h wd c Hx Hn
                ltac:(lia) ltac:(lia)) as Hs.
  change (shape_of (Activation ?f ?y)) with (shape_of y).
  change (shape_of (GlobalAveragePooling2D ?y)) with
    (match shape_of y with Some [_; _; c] => Some [c] | _ => None end).
  by rewrite Hs.
Qed.

End Shapes.

(** ** What the host library accepts *)

Section Acceptance.

Import SqueezeNetBypass.

Implicit Types (x : tensor) (w : option string) (b : block_spec)
  (blocks : group_spec) (items : list group_spec) (h wd c n : Z).

Lemma shape_conv x f k1 k2 (a i : string) :
  0 < k1 -> 0 < k2 ->
  shape_of (Conv2D f (k1, k2) 1 same a i x)
  = match shape_of x with
    | Some [h; wd; _] => if 0 <? f then Some [h; wd; f] else None
    | _ => None
    end.
Proof.
  intros Hk1 Hk2. cbn [shape_of].
  destruct (shape_of x) as [[|h [|wd [|c [|]]]]|]; try done.
  destruct (0 <? f); [|done]. by rewrite !out_size_same_1.
Qed.

Lemma shape_concat_eq (a b : tensor) :
  shape_of (Concatenate a b)
  = match shape_of a, shape_of b with
    | Some [h1; w1; c1], Some [h2; w2; c2] =>
        if (h1 =? h2) && (w1 =? w2) then Some [h1; w1; c1 + c2] else None
    | _, _ => None
    end.
Proof. reflexivity. Qed.

Lemma shape_add_eq (a b : tensor) :
  shape_of (Add a b)
  = match shape_of a, shape_of b with
    | Some s1, Some s2 => merge_shape s1 s2
    | _, _ => None
    end.
Proof. reflexivity. Qed.

(** [Add] on the concatenation of a fire block and the block's input. *)
Lemma merge_shape_bypass h wd c m :
  1 < m ->
  merge_shape [h; wd; m] [h; wd; c]
  = if (c =? m) || (c =? 1) then Some [h; wd; m] else None.
Proof.
  intros Hm.
  cbv [merge_shape merge_axes length Nat.ltb Nat.leb Nat.sub skipn firstn
       app].
  rewrite !Z.eqb_refl.
  destruct (Z.eqb_spec m 1); [lia|].
  rewrite (Z.eqb_sym m c).
  destruct (Z.eqb_spec c 1), (Z.eqb_spec c m); cbn [orb];
    destruct (wd =? 1), (h =? 1); reflexivity.
Qed.

Lemma shape_fire_block x w b :
  shape_of (fire_block x w b)
  = match shape_of x with
    | Some [h; wd; c] =>
        if block_fits c b then Some [h; wd; 8 * n_filters b] else None
    | _ => None
    end.
Proof.
  destruct b as [n byp]. unfold fire_block, block_fits.
  cbn [n_filters bypass].
  set (i := match w with None => init_weights | Some w0 => w0 end).
  assert (Hcat :
    shape_of (Concatenate
      (Conv2D (n * 4) (1, 1) 1 same "relu" i
         (Conv2D n (1, 1) 1 same "relu" i x))
      (Conv2D (n * 4) (3, 3) 1 same "relu" i
         (Conv2D n (1, 1) 1 same "relu" i x)))
    = match shape_of x with
      | Some [h; wd; c] => if 0 <? n then Some [h; wd; 8 * n] else None
      | _ => None
      end).
  { rewrite shape_concat_eq, !shape_conv by lia.
    destruct (shape_of x) as [[|h [|wd [|c [|]]]]|]; try done.
    destruct (Z.ltb_spec 0 n); [|done].
    destruct (Z.ltb_spec 0 (n * 4)); [|lia].
    rewrite !Z.eqb_refl. cbn [andb].
    by replace (n * 4 + n * 4) with (8 * n) by lia. }
  destruct byp; [rewrite shape_add_eq|]; rewrite Hcat;
    destruct (shape_of x) as [[|h [|wd [|c [|]]]]|]; try done;
    destruct (Z.ltb_spec 0 n); try done; cbn [andb negb orb].
  by rewrite merge_shape_bypass by lia.
Qed.

Lemma shape_fire_block_None x w b :
  shape_of x = None -> shape_of (fire_block x w b) = None.
Proof. intros Hx. by rewrite shape_fire_block, Hx. Qed.

Lemma shape_blocks_of_None blocks : forall x w,
  shape_of x = None -> shape_of (blocks_of x w blocks) = None.
Proof.
  induction blocks as [|b blocks IH]; intros x w Hx; [done|].
  apply IH. by apply shape_fire_block_None.
Qed.

Lemma shape_blocks_of blocks : forall x w h wd c,
  shape_of x = Some [h; wd; c] ->
  shape_of (blocks_of x w blocks)
  = match channels_after c blocks with
    | Some c' => Some [h; wd; c']
    | None => None
    end.
Proof.
  induction blocks as [|b blocks IH]; intros x w h wd c Hx; [done|].
  change (blocks_of x w (b :: blocks))
    with (blocks_of (fire_block x w b) w blocks).
  pose proof (shape_fire_block x w b) as Hb. rewrite Hx in Hb.
  cbn [channels_after]. destruct (block_fits c b).
  - by apply IH.
  - by apply shape_blocks_of_None.
Qed.

Lemma shape_group x w blocks h wd c :
  shape_of x = Some [h; wd; c] ->
  shape_of (group x w blocks)
  = match channels_after c blocks,
          out_size valid h 3 2, out_size valid wd 3 2 with
    | Some c', Some h', Some wd' => Some [h'; wd'; c']
    | _, _, _ => None
    end.
Proof.
  intros Hx. rewrite group_unfold, shape_pool.
  rewrite (shape_blocks_of blocks x _ h wd c Hx).
  by destruct (channels_after c blocks).
Qed.

Lemma shape_group_None x w blocks :
  shape_of x = None -> shape_of (group x w blocks) = None.
Proof.
  intros Hx. rewrite group_unfold, shape_pool.
  by rewrite shape_blocks_of_None.
Qed.

Lemma shape_groups_of_None items : forall x,
  shape_of x = None -> shape_of (groups_of x items) = None.
Proof.
  induction items as [|g items IH]; intros x Hx; [done|].
  apply IH. by apply shape_group_None.
Qed.

Lemma channels_after_app (blocks1 blocks2 : list block_spec) : forall c,
  channels_after c (blocks1 ++ blocks2)
  = match channels_after c blocks1 with
    | Some c' => channels_after c' blocks2
    | None => None
    end.
Proof.
  induction blocks1 as [|b blocks1 IH]; intros c; [done|].
  cbn [app channels_after]. by destruct (block_fits c b).
Qed.

(** The channels of the learner's loop do not depend on where the groups
    end, and the spatial sizes only on how many groups there are. *)
Lemma shape_groups_of items : forall x h wd c,
  shape_of x = Some [h; wd; c] ->
  shape_of (groups_of x items)
  = match channels_after c (concat items),
          pooled (length items) h, pooled (length items) wd with
    | Some c', Some h', Some wd' => Some [h'; wd'; c']
    | _, _, _ => None
    end.
Proof.
  induction items as [|g items IH]; intros x h wd c Hx; [done|].
  change (groups_of x (g :: items))
    with (groups_of (group x None g) items).
  pose proof (shape_group x None g h wd c Hx) as Hg.
  cbn [concat length pooled]. rewrite channels_after_app.
  destruct (channels_after c g) as [c1|];
    [|by apply shape_groups_of_None].
  destruct (out_size valid h 3 2) as [h1|].
  - destruct (out_size valid wd 3 2) as [wd1|].
    + by apply IH.
    + rewrite shape_groups_of_None by done.
      by destruct (channels_after c1 (concat items)), (pooled (length items) h1).
  - rewrite shape_groups_of_None; [|by destruct (out_size valid wd 3 2)].
    by destruct (channels_after c1 (concat items)).
Qed.

Lemma pooled_55 (k : nat) : is_Some (pooled k 55) <-> (k <= 4)%nat.
Proof.
  do 5 (destruct k as [|k]; [split; [lia|by eexists]|]).
  split; [|lia]. by intros [? [=]].
Qed.

End Acceptance.

(** ** Layers inside a graph *)

(** A graph with a shape has a shape at every layer. *)
Lemma shape_of_occurs (a t : tensor) :
  occurs a t -> is_Some (shape_of t) -> is_Some (shape_of a).
Proof.
  induction 1 as [ | f [k1 k2] st p act i x _ IH | [k1 k2] st x _ IH
                 | x1 x2 _ IH | x1 x2 _ IH | x1 x2 _ IH | x1 x2 _ IH
                 | r x _ IH | x _ IH | fn x _ IH ];
    intros [sh Hsh]; try done; apply IH; cbn [shape_of] in Hsh.
  - destruct (shape_of x); [eauto | done].
  - destruct (shape_of x); [eauto | done].
  - destruct (shape_of x1); [eauto | done].
  - destruct (shape_of x1); [|done]. destruct (shape_of x2); [eauto|].
    by repeat case_match.
  - destruct (shape_of x1); [eauto | done].
  - destruct (shape_of x1); [|done]. destruct (shape_of x2); [eauto | done].
  - destruct (rate_ok r); [eauto | done].
  - destruct (shape_of x); [eauto | done].
  - eauto.
Qed.

(** Where [adds_agree] holds, the two operands of every [Add] of the
    graph have one and the same shape. *)
Lemma adds_agree_occurs (a b t : tensor) :
  occurs (Add a b) t -> adds_agree t = true ->
  exists sh, shape_of a = Some sh /\ shape_of b = Some sh.
Proof.
  remember (Add a b) as u eqn:Hu.
  induction 1 as [ | f k st p act i x _ IH | k st x _ IH
                 | x1 x2 _ IH | x1 x2 _ IH | x1 x2 _ IH | x1 x2 _ IH
                 | r x _ IH | x _ IH | fn x _ IH ];
    cbn [adds_agree]; intros Ht; try (by apply IH).
  - subst u. cbn [adds_agree] in Ht.
    destruct (shape_of a) as [sa|]; [|done].
    destruct (shape_of b) as [sb|]; [|done].
    apply andb_prop in Ht as [Ht _]. apply andb_prop in Ht as [Ht _].
    apply bool_decide_eq_true in Ht as ->. by eexists.
  - apply andb_prop in Ht as [Ht _]. by apply IH.
  - apply andb_prop in Ht as [_ Ht]. by apply IH.
  - destruct (shape_of x1), (shape_of x2); try done.
    apply andb_prop in Ht as [Ht _]. apply andb_prop in Ht as [_ Ht].
    by apply IH.
  - destruct (shape_of x1), (shape_of x2); try done.
    apply andb_prop in Ht as [_ Ht]. by apply IH.
Qed.

(** ** What a construction returns *)

Section Outcome.

Import SqueezeNetBypass.

Implicit Types (x : tensor) (w : option string) (b : block_spec)
  (blocks : group_spec) (items : list group_spec)
  (s : store) (l : loc) (d : pyval) (h wd c n : Z).

Lemma fire_blocks_stem x : fire_blocks (stem x) = fire_blocks x.
Proof. reflexivity. Qed.

Lemma fire_blocks_classifier x n :
  fire_blocks (classifier x n) = fire_blocks x.
Proof. reflexivity. Qed.

(** The fire blocks of the graph the constructor wires: every block of
    the groups that stay in the list, then the first block of the group
    it popped. *)
Lemma fire_blocks_built items b d n :
  fire_blocks (graph_of items b d n) = concat items ++ [b].
Proof.
  unfold graph_of. rewrite fire_blocks_classifier.
  change (fire_blocks (Dropout d ?y)) with (fire_blocks y).
  rewrite fire_blocks_fire_block, fire_blocks_groups_of.
  by rewrite fire_blocks_stem.
Qed.

Lemma shape_classifier_eq x n :
  shape_of (classifier x n)
  = match shape_of x with
    | Some [_; _; _] => if 0 <? n then Some [n] else None
    | _ => None
    end.
Proof.
  unfold classifier.
  change (shape_of (Activation ?f ?y)) with (shape_of y).
  change (shape_of (GlobalAveragePooling2D ?y)) with
    (match shape_of y with Some [_; _; c] => Some [c] | _ => None end).
  rewrite shape_conv by lia.
  destruct (shape_of x) as [[|h [|wd [|c [|]]]]|]; try done.
  by destruct (0 <? n).
Qed.

(** The shape of the graph the constructor wires. *)
Lemma shape_built items b d n :
  shape_of (graph_of items b d n)
  = match channels_after 96 (concat items ++ [b]),
          pooled (length items) 55 with
    | Some _, Some _ => if rate_ok d && (0 <? n) then Some [n] else None
    | _, _ => None
    end.
Proof.
  unfold graph_of. rewrite shape_classifier_eq.
  change (shape_of (Dropout d ?y))
    with (if rate_ok d then shape_of y else None).
  rewrite shape_fire_block.
  rewrite (shape_groups_of items _ 55 55 96) by reflexivity.
  rewrite channels_after_app.
  destruct (channels_after 96 (concat items)) as [c1|];
    [|by destruct (rate_ok d)].
  cbn [channels_after].
  destruct (pooled (length items) 55) as [h1|], (block_fits c1 b);
    by destruct (rate_ok d), (0 <? n).
Qed.

(** The library accepts the graph exactly under these conditions, and
    its output then has [n] entries. *)
Lemma graph_accepted_iff items b d n :
  is_Some (shape_of (graph_of items b d n))
  <-> (length items <= 4)%nat /\
      is_Some (channels_after 96 (concat items ++ [b])) /\
      rate_ok d = true /\ 0 < n.
Proof.
  rewrite shape_built.
  pose proof (pooled_55 (length items)) as Hp.
  destruct (channels_after 96 (concat items ++ [b])) as [c'|].
  - destruct (pooled (length items) 55) as [h'|].
    + destruct (rate_ok d); cbn [andb].
      * destruct (Z.ltb_spec 0 n) as [Hn|Hn].
        -- split; [intros _|by eexists].
           split; [apply Hp; by eexists|]. split; [by eexists|done].
        -- split; [by intros [? ?]|]. intros (_ & _ & _ & ?). lia.
      * split; [by intros [? ?]|]. by intros (_ & _ & ? & _).
    + split; [by intros [? ?]|].
      intros (Hk & _). by destruct (proj2 Hp Hk).
  - split; [by intros [? ?]|]. by intros (_ & [? ?] & _).
Qed.

Lemma graph_shape items b d n sh :
  shape_of (graph_of items b d n) = Some sh -> sh = [n].
Proof.
  rewrite shape_built.
  destruct (channels_after 96 (concat items ++ [b])); [|done].
  destruct (pooled (length items) 55); [|done].
  destruct (rate_ok d && (0 <? n)); [|done]. by intros [= <-].
Qed.

(** The loop of [learner] returns the graph of the groups when the
    library accepts it, and raises [ValueError] otherwise. *)
Lemma for_groups_spec items : forall x,
  is_Some (shape_of x) ->
  for_groups x items
  = match shape_of (groups_of x items) with
    | Some _ => Ok (groups_of x items)
    | None => Raise ValueError
    end.
Proof.
  induction items as [|g items IH]; intros x Hx.
  - cbn. by destruct Hx as [sh ->].
  - change (groups_of x (g :: items))
      with (groups_of (group x None g) items).
    cbn [for_groups]. unfold accepted at 1.
    destruct (shape_of (group x None g)) as [sh|] eqn:Hg.
    + cbn [and_then]. apply IH. by eexists.
    + by rewrite shape_groups_of_None.
Qed.

Lemma refusal_fire_block x w b : refusal (fire_block x w b) = ValueError.
Proof. by destruct b as [n [|]]. Qed.

(** A construction that has popped a group with a first block returns
    the model of [graph_of] when the library accepts the graph. *)
Lemma built_returns items b (rest : group_spec) d n sh :
  shape_of (graph_of items b d n) = Some sh ->
  built items (b :: rest) d n
  = Ok (mkInstance
          (Some (mkModel (Input [224; 224; 3]) (graph_of items b d n)))).
Proof.
  unfold graph_of, built. intros Hsh.
  set (G := groups_of (stem (Input [224; 224; 3])) items) in *.
  rewrite shape_classifier_eq in Hsh.
  change (shape_of (Dropout d ?y))
    with (if rate_ok d then shape_of y else None) in Hsh.
  destruct (rate_ok d) eqn:Hd; [|done].
  destruct (shape_of (fire_block G None b)) as [sf|] eqn:Hf; [|done].
  assert (is_Some (shape_of G)) as [sg Hg].
  { destruct (shape_of G) eqn:HG; [by eexists|].
    by rewrite shape_fire_block_None in Hf. }
  rewrite for_groups_spec by (by eexists).
  fold G. rewrite Hg. cbn [and_then first].
  unfold accepted at 1. rewrite Hf. cbn [and_then].
  unfold accepted at 1.
  change (shape_of (Dropout d ?y))
    with (if rate_ok d then shape_of y else None).
  rewrite Hd, Hf. cbn [and_then].
  unfold accepted. rewrite shape_classifier_eq.
  change (shape_of (Dropout d ?y))
    with (if rate_ok d then shape_of y else None).
  rewrite Hd, Hf.
  destruct sf as [|? [|? [|? [|]]]]; try done.
  by destruct (0 <? n).
Qed.

(** It raises when the library refuses the graph: a [ValueError], or a
    [TypeError] for a dropout rate that is no number. *)
Lemma built_raises items b (rest : group_spec) d n :
  shape_of (graph_of items b d n) = None ->
  exists e,
    built items (b :: rest) d n = Raise e /\
    (e = ValueError \/ e = TypeError) /\
    (forall r, d = PFloat r -> e = ValueError).
Proof.
  unfold graph_of, built. intros Hsh.
  set (G := groups_of (stem (Input [224; 224; 3])) items) in *.
  rewrite for_groups_spec by (by eexists). fold G.
  destruct (shape_of G) as [sg|] eqn:Hg;
    [|exists ValueError; by auto].
  cbn [and_then first]. unfold accepted at 1.
  destruct (shape_of (fire_block G None b)) as [sf|] eqn:Hf;
    [|exists ValueError; rewrite refusal_fire_block; by auto].
  cbn [and_then]. unfold accepted at 1.
  change (shape_of (Dropout d ?y))
    with (if rate_ok d then shape_of y else None).
  rewrite Hf. destruct (rate_ok d) eqn:Hd.
  - cbn [and_then]. unfold accepted. rewrite Hsh.
    exists ValueError. by auto.
  - cbn [and_then]. destruct d as [|r|t|l0];
      [exists TypeError|exists ValueError|exists TypeError|exists TypeError];
      (split; [reflexivity|]); (split; [by auto|]); by intros ? [=].
Qed.

(** It raises at [last[0]] when the group it popped is empty, unless
    the loop over the groups before has raised. *)
Lemma built_empty_last items d n :
  built items [] d n
  = match shape_of (groups_of (stem (Input [224; 224; 3])) items) with
    | Some _ => Raise IndexError
    | None => Raise ValueError
    end.
Proof.
  unfold built. rewrite for_groups_spec by (by eexists).
  by destruct (shape_of (groups_of _ items)).
Qed.

(** What a construction that returns has built. *)
Lemma built_inv items (g : group_spec) d n self :
  built items g d n = Ok self ->
  exists b rest,
    g = b :: rest /\
    shape_of (graph_of items b d n) = Some [n] /\
    self = mkInstance
             (Some (mkModel (Input [224; 224; 3]) (graph_of items b d n))).
Proof.
  intros Hb. destruct g as [|b rest].
  - rewrite built_empty_last in Hb.
    by destruct (shape_of (groups_of _ items)).
  - exists b, rest. split; [done|].
    destruct (shape_of (graph_of items b d n)) as [sh|] eqn:Hsh.
    + rewrite (built_returns items b rest d n sh Hsh) in Hb.
      injection Hb as <-. split; [|done].
      by rewrite (graph_shape items b d n sh Hsh).
    + destruct (built_raises items b rest d n Hsh) as (e & He & _).
      by rewrite He in Hb.
Qed.

(** The shape of the groups that stay in the list. *)
Lemma loop_accepted_iff items :
  is_Some (shape_of (groups_of (stem (Input [224; 224; 3])) items))
  <-> (length items <= 4)%nat /\
      is_Some (channels_after 96 (concat items)).
Proof.
  rewrite (shape_groups_of items _ 55 55 96) by reflexivity.
  pose proof (pooled_55 (length items)) as Hp.
  destruct (channels_after 96 (concat items)) as [c'|].
  - destruct (pooled (length items) 55) as [h'|].
    + split; [intros _|by eexists].
      split; [apply Hp; by eexists|by eexists].
    + split; [by intros [? ?]|]. intros (Hk & _). by destruct (proj2 Hp Hk).
  - split; [by intros [? ?]|]. by intros (_ & [? ?]).
Qed.

End Outcome.

(** ** Properties of the construction *)

Section Construction.

Import SqueezeNetBypass.

Implicit Types (x : tensor) (w : option string) (b : block_spec)
  (blocks : group_spec) (items : list group_spec)
  (s : store) (l : loc) (d : pyval) (n : Z).

(** A construction from a list with a last group that has a first block
    returns the model of [graph_of] when the library accepts the
    graph. *)
Lemma init_returns groups l d (shape : list Z) n items b
    (rest : group_spec) s :
  groups_arg groups = PList l ->
  s !! l = Some (items ++ [b :: rest]) ->
  library_accepts items b d n ->
  __init__ groups d shape n s
  = (Ok (mkInstance
           (Some (mkModel (Input [224; 224; 3]) (graph_of items b d n)))),
     <[l := items]> s) /\
  shape_of (graph_of items b d n) = Some [n].
Proof.
  intros Hg Hl Hacc.
  destruct (proj2 (graph_accepted_iff items b d n) Hacc) as [sh Hsh].
  rewrite (init_run groups l d shape n items (b :: rest) s Hg Hl).
  rewrite (built_returns items b rest d n sh Hsh).
  split; [done|]. by rewrite Hsh, (graph_shape items b d n sh Hsh).
Qed.

(** It raises otherwise, after the [pop]. *)
Lemma init_raises groups l d (shape : list Z) n items b
    (rest : group_spec) s :
  groups_arg groups = PList l ->
  s !! l = Some (items ++ [b :: rest]) ->
  ~ library_accepts items b d n ->
  exists e,
    __init__ groups d shape n s = (Raise e, <[l := items]> s) /\
    (e = ValueError \/ e = TypeError) /\
    (forall r, d = PFloat r -> e = ValueError).
Proof.
  intros Hg Hl Hacc.
  rewrite (init_run groups l d shape n items (b :: rest) s Hg Hl).
  destruct (shape_of (graph_of items b d n)) as [sh|] eqn:Hsh.
  - destruct Hacc. apply graph_accepted_iff. by eexists.
  - destruct (built_raises items b rest d n Hsh) as (e & -> & He).
    by exists e.
Qed.

Lemma learner_not_list x (mp : gmap string pyval) g s :
  mp !! "groups" = Some g -> is_Some (mp !! "dropout") ->
  (forall l, g <> PList l) ->
  learner x mp s = (Raise (AttributeError "pop"), s).
Proof.
  intros Hg [d Hd] Hnl. unfold learner, bind, lift, getitem.
  rewrite Hg, Hd. unfold ret.
  destruct g as [|r|t|l]; try reflexivity. by destruct (Hnl l).
Qed.

(** What a construction that returns was handed, and what it built. *)
Lemma init_inv groups d (shape : list Z) n s self s' :
  __init__ groups d shape n s = (Ok self, s') ->
  exists l items b (rest : group_spec),
    groups_arg groups = PList l /\
    s !! l = Some (items ++ [b :: rest]) /\
    s' = <[l := items]> s /\
    library_accepts items b d n /\
    shape_of (graph_of items b d n) = Some [n] /\
    self = mkInstance
             (Some (mkModel (Input [224; 224; 3]) (graph_of items b d n))).
Proof.
  intros Hrun.
  destruct (groups_arg groups) as [|r|t|l] eqn:Hg.
  1-3: rewrite init_unfold, Hg in Hrun;
       rewrite (learner_not_list _ _ _ s (kwargs_groups _ _)) in Hrun;
       [done|rewrite kwargs_dropout; by eexists|done].
  destruct (s !! l) as [cfg|] eqn:Hl.
  - destruct cfg as [|g items _] using rev_ind.
    + by rewrite (init_empty groups l d shape n s Hg Hl) in Hrun.
    + rewrite (init_run groups l d shape n items g s Hg Hl) in Hrun.
      injection Hrun as Hb <-.
      destruct (built_inv items g d n self Hb) as (b & rest & -> & Hsh & ->).
      exists l, items, b, rest. repeat split; try done;
        apply (proj1 (graph_accepted_iff items b d n)); by eexists.
  - rewrite init_unfold, Hg in Hrun.
    unfold learner, bind, lift, getitem, ret, pop in Hrun.
    rewrite kwargs_groups, kwargs_dropout, Hl in Hrun. done.
Qed.

(** C1, as stated, fails: with the single group
    [[{16, False}, {16, True}]] passed as [groups], every group is
    non-empty and the constructor returns a model, but the graph holds
    one fire block, for the first block spec only; and with the single
    group [[{16, True}]] the constructor raises, since the library
    refuses to add the 96 channels of the stem to the 128 of the
    block. *)
Lemma C1_last_group_keeps_first_block_only :
  let cfg := [[BlockSpec 16 false; BlockSpec 16 true]] in
  let s := <[2%positive := cfg]> store_at_import in
  let cfg' := [[BlockSpec 16 true]] in
  let s' := <[2%positive := cfg']> store_at_import in
  (Forall (fun g => g <> []) cfg /\
   exists m,
     __init__ (PList 2) (PFloat (1 # 2)) [224; 224; 3] 1000 s
     = (Ok (mkInstance (Some m)), <[2%positive := []]> s) /\
     shape_of (outputs m) = Some [1000] /\
     fire_blocks (outputs m) = [BlockSpec 16 false] /\
     fire_blocks (outputs m) <> concat cfg) /\
  (Forall (fun g => g <> []) cfg' /\
   __init__ (PList 2) (PFloat (1 # 2)) [224; 224; 3] 1000 s'
   = (Raise ValueError, <[2%positive := []]> s')).
Proof.
  intros cfg s cfg' s'. split.
  - split; [by repeat constructor|].
    eexists. split.
    + rewrite (init_run (PList 2) 2 _ _ _ []
                 [BlockSpec 16 false; BlockSpec 16 true] s eq_refl
                 (lookup_insert_eq _ _ _)).
      by rewrite (built_returns [] (BlockSpec 16 false) [BlockSpec 16 true]
                    (PFloat (1 # 2)) 1000 [1000]
                    ltac:(vm_compute; reflexivity)).
    + cbn [outputs]. split; [vm_compute; reflexivity|].
      rewrite fire_blocks_built. by split.
  - split; [by repeat constructor|].
    by rewrite (init_run (PList 2) 2 _ _ _ [] [BlockSpec 16 true] s' eq_refl
                  (lookup_insert_eq _ _ _)).
Qed.

(** C1 (amended): for every configuration passed as [groups] whose last
    group consists of exactly one block spec, the constructor returns a
    model exactly when the host library accepts every layer call, and
    the graph of the model then holds exactly one fire block for every
    block spec of every group, in configuration order. *)
Theorem C1_blocks_expanded_in_order l items b d (shape : list Z) n s :
  s !! l = Some (items ++ [[b]]) ->
  (library_accepts items b d n ->
   exists m,
     __init__ (PList l) d shape n s
     = (Ok (mkInstance (Some m)), <[l := items]> s) /\
     fire_blocks (outputs m) = concat (items ++ [[b]])) /\
  (forall self s',
      __init__ (PList l) d shape n s = (Ok self, s') ->
      library_accepts items b d n /\
      exists m,
        model self = Some m /\
        fire_blocks (outputs m) = concat (items ++ [[b]])).
Proof.
  intros Hl.
  assert (Hcat : concat (items ++ [[b]]) = concat items ++ [b])
    by (by rewrite concat_app).
  split.
  - intros Hacc.
    destruct (init_returns (PList l) l d shape n items b [] s eq_refl Hl Hacc)
      as [-> _].
    eexists. split; [reflexivity|].
    cbn [outputs]. by rewrite fire_blocks_built.
  - intros self s' Hrun.
    destruct (init_inv _ _ _ _ _ _ _ Hrun)
      as (l0 & items0 & b0 & rest0 & [= <-] & Hl0 & _ & Hacc & _ & ->).
    rewrite Hl in Hl0. injection Hl0 as Heq.
    apply app_inj_tail in Heq as [<- [= <- <-]].
    split; [done|]. eexists. split; [reflexivity|].
    cbn [outputs]. by rewrite fire_blocks_built.
Qed.

(** C1 (amended) at the list bound to the class attribute [groups], passed
    explicitly. *)
Lemma C1_blocks_expanded_in_order_witness :
  store_at_import !! groups_ref
  = Some (removelast groups ++ [[BlockSpec 64 true]]) /\
  library_accepts (removelast groups) (BlockSpec 64 true)
    (PFloat (1 # 2)) 1000 /\
  exists m,
    __init__ (PList groups_ref) (PFloat (1 # 2)) [224; 224; 3] 1000
      store_at_import
    = (Ok (mkInstance (Some m)),
       <[groups_ref := removelast groups]> store_at_import) /\
    fire_blocks (outputs m)
    = concat (removelast groups ++ [[BlockSpec 64 true]]).
Proof.
  assert (Hl : store_at_import !! groups_ref
               = Some (removelast groups ++ [[BlockSpec 64 true]]))
    by reflexivity.
  assert (Hacc : library_accepts (removelast groups) (BlockSpec 64 true)
                   (PFloat (1 # 2)) 1000).
  { split; [cbn; lia|]. split; [by eexists|]. by split. }
  split; [exact Hl|]. split; [exact Hacc|].
  exact (proj1 (C1_blocks_expanded_in_order groups_ref (removelast groups)
                  (BlockSpec 64 true) (PFloat (1 # 2)) [224; 224; 3] 1000
                  store_at_import Hl) Hacc).
Defined.

(** C2, at two successive constructions with default arguments: the
    first one pops the last group off the list bound to the class
    attribute [groups], so the second one builds a graph with four
    fire blocks instead of eight, the third one a graph with one, and
    the fourth raises [IndexError]. *)
Theorem C2_default_groups_consumed :
  let run := __init__ PNone (PFloat (1 # 2)) [224; 224; 3] 1000 in
  exists self1 s1 self2 s2 self3 s3 m1 m2,
    store_at_import !! groups_ref = Some groups /\
    run store_at_import = (Ok self1, s1) /\
    s1 !! groups_ref = Some (removelast groups) /\
    s1 !! groups_ref <> store_at_import !! groups_ref /\
    run s1 = (Ok self2, s2) /\
    model self1 = Some m1 /\
    model self2 = Some m2 /\
    fire_blocks (outputs m1) = concat groups /\
    fire_blocks (outputs m2)
    = [ BlockSpec 16 false; BlockSpec 16 true; BlockSpec 32 false;
        BlockSpec 32 true ] /\
    m1 <> m2 /\
    run s2 = (Ok self3, s3) /\
    run s3 = (Raise IndexError, s3).
Proof.
  intros run.
  set (g1 := [ BlockSpec 16 false; BlockSpec 16 true; BlockSpec 32 false ]).
  set (g2 := [ BlockSpec 32 true; BlockSpec 48 false; BlockSpec 48 true;
               BlockSpec 64 false ]).
  set (s1 := <[groups_ref := [g1; g2]]> store_at_import : store).
  set (s2 := <[groups_ref := [g1]]> s1 : store).
  set (s3 := <[groups_ref := []]> s2 : store).
  pose proof (init_run PNone groups_ref (PFloat (1 # 2)) [224; 224; 3] 1000
                [g1; g2] [BlockSpec 64 true] store_at_import
                eq_refl eq_refl) as H1.
  pose proof (init_run PNone groups_ref (PFloat (1 # 2)) [224; 224; 3] 1000
                [g1] g2 s1 eq_refl (lookup_insert_eq _ _ _)) as H2.
  pose proof (init_run PNone groups_ref (PFloat (1 # 2)) [224; 224; 3] 1000
                [] g1 s2 eq_refl (lookup_insert_eq _ _ _)) as H3.
  pose proof (init_empty PNone groups_ref (PFloat (1 # 2)) [224; 224; 3] 1000
                s3 eq_refl (lookup_insert_eq _ _ _)) as H4.
  rewrite (built_returns [g1; g2] (BlockSpec 64 true) []
             (PFloat (1 # 2)) 1000 [1000]
             ltac:(vm_compute; reflexivity)) in H1.
  unfold g2 in H2.
  rewrite (built_returns [g1] (BlockSpec 32 true)
             [BlockSpec 48 false; BlockSpec 48 true; BlockSpec 64 false]
             (PFloat (1 # 2)) 1000 [1000]
             ltac:(vm_compute; reflexivity)) in H2.
  unfold g1 in H3.
  rewrite (built_returns [] (BlockSpec 16 false)
             [BlockSpec 16 true; BlockSpec 32 false]
             (PFloat (1 # 2)) 1000 [1000]
             ltac:(vm_compute; reflexivity)) in H3.
  eexists _, s1, _, s2, _, s3, _, _.
  split; [reflexivity|]. split; [exact H1|].
  split; [apply lookup_insert_eq|].
  split; [by unfold s1; rewrite lookup_insert_eq|].
  split; [exact H2|].
  split; [reflexivity|]. split; [reflexivity|].
  cbn [outputs].
  split; [by rewrite fire_blocks_built|].
  split; [by rewrite fire_blocks_built|].
  split; [|by split].
  intros Hm. apply (f_equal (fun m => length (fire_blocks (outputs m)))) in Hm.
  cbn [outputs] in Hm. rewrite !fire_blocks_built in Hm. discriminate Hm.
Qed.

(** C3, on the code: whatever [input_shape] is passed, the first
    construction returns a model whose input tensor is
    [Input((224, 224, 3))]; its output has [n_classes] entries. *)
Theorem C3_input_shape_ignored (shape : list Z) n :
  0 < n ->
  exists m s',
    __init__ PNone (PFloat (1 # 2)) shape n store_at_import
    = (Ok (mkInstance (Some m)), s') /\
    inputs m = Input [224; 224; 3] /\
    shape_of (inputs m) = Some [224; 224; 3] /\
    shape_of (outputs m) = Some [n].
Proof.
  intros Hn.
  assert (Hacc : library_accepts (removelast groups) (BlockSpec 64 true)
                   (PFloat (1 # 2)) n).
  { split; [cbn; lia|]. split; [by eexists|]. by split. }
  destruct (init_returns PNone groups_ref (PFloat (1 # 2)) shape n
              (removelast groups) (BlockSpec 64 true) [] store_at_import
              eq_refl eq_refl Hacc) as [Hrun Hsh].
  eexists _, _. split; [exact Hrun|].
  cbn [inputs outputs]. by repeat split.
Qed.

(** C3 at [input_shape = (32, 32, 3)] and [n_classes = 10]: the input
    tensor of the model has shape (224, 224, 3), not (32, 32, 3). *)
Lemma C3_input_shape_ignored_witness :
  0 < 10 /\
  exists m s',
    __init__ PNone (PFloat (1 # 2)) [32; 32; 3] 10 store_at_import
    = (Ok (mkInstance (Some m)), s') /\
    inputs m = Input [224; 224; 3] /\
    shape_of (inputs m) = Some [224; 224; 3] /\
    shape_of (outputs m) = Some [10].
Proof.
  split; [reflexivity|].
  apply (C3_input_shape_ignored [32; 32; 3] 10). reflexivity.
Defined.

(** C4: [fire_block] adds its input to the concatenation of the 1x1 and
    3x3 expand branches if and only if the spec's [bypass] is true;
    when it is false the output is exactly the concatenation. *)
Theorem C4_residual_add_iff_bypass x w b :
  let i := default init_weights w in
  let squeeze := Conv2D (n_filters b) (1, 1) 1 same "relu" i x in
  let cat :=
    Concatenate
      (Conv2D (n_filters b * 4) (1, 1) 1 same "relu" i squeeze)
      (Conv2D (n_filters b * 4) (3, 3) 1 same "relu" i squeeze) in
  fire_block x w b = (if bypass b then Add cat x else cat) /\
  (fire_block x w b = Add cat x <-> bypass b = true) /\
  (fire_block x w b = cat <-> bypass b = false) /\
  ((exists y z, fire_block x w b = Add y z) <-> bypass b = true).
Proof.
  intros i squeeze cat.
  assert (fire_block x w b = if bypass b then Add cat x else cat) as ->.
  { by destruct w. }
  destruct (bypass b); repeat split; try done.
  - by exists cat, x.
  - by intros (y & z & ?).
Qed.

Lemma poolings_fire_block x w b : poolings (fire_block x w b) = poolings x.
Proof. by destruct b as [n [|]]. Qed.

Lemma dropouts_fire_block x w b : dropouts (fire_block x w b) = dropouts x.
Proof. by destruct b as [n [|]]. Qed.

Lemma poolings_blocks_of blocks : forall x w,
  poolings (blocks_of x w blocks) = poolings x.
Proof.
  induction blocks as [|b blocks IH]; intros x w; [done|].
  cbn. unfold blocks_of in IH. by rewrite IH, poolings_fire_block.
Qed.

Lemma dropouts_blocks_of blocks : forall x w,
  dropouts (blocks_of x w blocks) = dropouts x.
Proof.
  induction blocks as [|b blocks IH]; intros x w; [done|].
  cbn. unfold blocks_of in IH. by rewrite IH, dropouts_fire_block.
Qed.

Lemma poolings_groups_of items : forall x,
  poolings (groups_of x items) = (length items + poolings x)%nat.
Proof.
  induction items as [|g items IH]; intros x; [done|].
  change (groups_of x (g :: items))
    with (groups_of (group x None g) items).
  rewrite IH, group_unfold. cbn [poolings length].
  rewrite poolings_blocks_of. lia.
Qed.

Lemma dropouts_groups_of items : forall x,
  dropouts (groups_of x items) = dropouts x.
Proof.
  induction items as [|g items IH]; intros x; [done|].
  change (groups_of x (g :: items))
    with (groups_of (group x None g) items).
  rewrite IH, group_unfold. cbn [dropouts].
  apply dropouts_blocks_of.
Qed.

(** C5: when [__init__] has returned, [model] is the graph
    [Model(inputs, outputs)] on the input layer, in which the layers of
    the stem are applied to [inputs], the fire blocks of the learner,
    group after group, and its dropout layer to the stem's output, and
    the layers of the classifier to the learner's output. *)
Theorem C5_model_composes_stages groups d (shape : list Z) n s self s' :
  __init__ groups d shape n s = (Ok self, s') ->
  exists l items b (rest : group_spec) m,
    groups_arg groups = PList l /\
    s !! l = Some (items ++ [b :: rest]) /\
    model self = Some m /\
    inputs m = Input [224; 224; 3] /\
    let x0 :=
      MaxPooling2D (3, 3) 2
        (Conv2D 96 (7, 7) 2 same "relu" "glorot_uniform" (inputs m)) in
    let y := Dropout d (fire_block (groups_of x0 items) None b) in
    outputs m
    = Activation "softmax"
        (GlobalAveragePooling2D
           (Conv2D n (1, 1) 1 same "relu" "glorot_uniform" y)) /\
    fire_blocks y = concat items ++ [b] /\
    poolings y = S (length items) /\
    shape_of (outputs m) = Some [n].
Proof.
  intros Hrun.
  destruct (init_inv _ _ _ _ _ _ _ Hrun)
    as (l & items & b & rest & Hg & Hl & _ & _ & Hsh & ->).
  exists l, items, b, rest. eexists.
  split; [done|]. split; [done|]. split; [reflexivity|].
  cbn [inputs outputs]. split; [reflexivity|].
  split; [reflexivity|]. split; [|split; [|exact Hsh]].
  - change (fire_blocks (Dropout d ?z)) with (fire_blocks z).
    by rewrite fire_blocks_fire_block, fire_blocks_groups_of.
  - change (poolings (Dropout d ?z)) with (poolings z).
    rewrite poolings_fire_block, poolings_groups_of. cbn. lia.
Qed.

(** C5 at the first construction with default arguments. *)
Lemma C5_model_composes_stages_witness :
  exists self s',
    __init__ PNone (PFloat (1 # 2)) [224; 224; 3] 1000 store_at_import
    = (Ok self, s') /\
    exists l items b (rest : group_spec) m,
      groups_arg PNone = PList l /\
      store_at_import !! l = Some (items ++ [b :: rest]) /\
      model self = Some m /\
      inputs m = Input [224; 224; 3] /\
      let x0 :=
        MaxPooling2D (3, 3) 2
          (Conv2D 96 (7, 7) 2 same "relu" "glorot_uniform" (inputs m)) in
      let y := Dropout (PFloat (1 # 2))
                 (fire_block (groups_of x0 items) None b) in
      outputs m
      = Activation "softmax"
          (GlobalAveragePooling2D
             (Conv2D 1000 (1, 1) 1 same "relu" "glorot_uniform" y)) /\
      fire_blocks y = concat items ++ [b] /\
      poolings y = S (length items) /\
      shape_of (outputs m) = Some [1000].
Proof.
  assert (Hacc : library_accepts (removelast groups) (BlockSpec 64 true)
                   (PFloat (1 # 2)) 1000).
  { split; [cbn; lia|]. split; [by eexists|]. by split. }
  destruct (init_returns PNone groups_ref (PFloat (1 # 2)) [224; 224; 3]
              1000 (removelast groups) (BlockSpec 64 true) []
              store_at_import eq_refl eq_refl Hacc) as [Hrun _].
  eexists _, _. split; [exact Hrun|].
  exact (C5_model_composes_stages _ _ _ _ _ _ _ Hrun).
Defined.

(** C6: [group] applies a max-pooling layer with stride 2 to the output
    of the last of the group's fire blocks, all of which come before
    it; the pooled output is smaller along both spatial axes. *)
Theorem C6_group_downsamples x w blocks :
  let y := blocks_of x (Some (default init_weights w)) blocks in
  group x w blocks = MaxPooling2D (3, 3) 2 y /\
  fire_blocks y = fire_blocks x ++ blocks /\
  (forall h wd c,
      shape_of y = Some [h; wd; c] -> 3 <= h -> 3 <= wd ->
      exists h' wd',
        shape_of (group x w blocks) = Some [h'; wd'; c] /\
        0 < h' < h /\ 0 < wd' < wd) /\
  (forall sh,
      shape_of (group x w blocks) = Some sh ->
      exists h wd c h' wd',
        shape_of y = Some [h; wd; c] /\ sh = [h'; wd'; c] /\
        h' < h /\ wd' < wd) /\
  (forall x0 items,
      groups_of x0 (items ++ [blocks])
      = group (groups_of x0 items) None blocks).
Proof.
  intros y. split; [apply group_unfold|].
  split; [apply fire_blocks_blocks_of|].
  split; [|split].
  - intros h wd c Hy Hh Hwd. rewrite group_unfold. fold y.
    rewrite shape_pool, Hy.
    rewrite (proj2 (out_size_pool h _) (conj Hh eq_refl)).
    rewrite (proj2 (out_size_pool wd _) (conj Hwd eq_refl)).
    eexists _, _. split; [reflexivity|].
    split; by apply pool_shrinks.
  - intros sh. rewrite group_unfold. fold y. rewrite shape_pool.
    intros Hsh.
    destruct (shape_of y) as [[|h [|wd [|c [|]]]]|]; try done.
    destruct (out_size valid h 3 2) as [h'|] eqn:Hh; [|done].
    destruct (out_size valid wd 3 2) as [wd'|] eqn:Hwd; [|done].
    injection Hsh as <-.
    apply out_size_pool in Hh as [Hh ->], Hwd as [Hwd ->].
    eexists h, wd, c, _, _. repeat split; by apply pool_shrinks.
  - intros x0 items. apply fold_left_app.
Qed.

(** C6 at the first group of the class attribute, on the stem's output:
    55 x 55 x 256 before the pooling layer. *)
Lemma C6_group_downsamples_witness :
  let x := stem (Input [224; 224; 3]) in
  let blocks :=
    [ BlockSpec 16 false; BlockSpec 16 true; BlockSpec 32 false ] in
  let y := blocks_of x (Some (default init_weights None)) blocks in
  shape_of y = Some [55; 55; 256] /\
  exists h' wd',
    shape_of (group x None blocks) = Some [h'; wd'; 256] /\
    0 < h' < 55 /\ 0 < wd' < 55.
Proof.
  intros x blocks y.
  assert (Hy : shape_of y = Some [55; 55; 256]) by (vm_compute; reflexivity).
  split; [exact Hy|].
  exact (proj1 (proj2 (proj2 (C6_group_downsamples x None blocks)))
           55 55 256 Hy ltac:(lia) ltac:(lia)).
Defined.

(** C7: two runs of the constructor with equal arguments, the groups
    passed as two separate list objects with equal items, end alike:
    with the same model, or with the same exception, be it one run
    after the other on one store or each run on a store of its own.
    They return a model whenever the last group has a first block and
    the host library accepts every layer call. *)
Theorem C7_construction_deterministic l1 l2 cfg d (shape : list Z) n s :
  l1 <> l2 ->
  s !! l1 = Some cfg ->
  s !! l2 = Some cfg ->
  let run1 := __init__ (PList l1) d shape n s in
  let run2 := __init__ (PList l2) d shape n (snd run1) in
  fst run1 = fst run2 /\
  (forall (s' : store) l',
      s' !! l' = Some cfg ->
      fst (__init__ (PList l') d shape n s') = fst run1) /\
  (forall items b rest,
      cfg = items ++ [b :: rest] ->
      library_accepts items b d n ->
      exists m, fst run1 = Ok (mkInstance (Some m)) /\
                fst run2 = Ok (mkInstance (Some m)) /\
                shape_of (outputs m) = Some [n]).
Proof.
  intros Hne H1 H2 run1 run2.
  assert (fst run1 = fst run2) as Heq.
  { apply (init_result_of_items l1 l2 cfg); [done|].
    unfold run1. by rewrite (init_frame l1 l2 cfg). }
  split; [done|].
  split; [intros s' l' Hl'; by apply (init_result_of_items l' l1 cfg)|].
  intros items b rest -> Hacc.
  rewrite <- Heq. unfold run1.
  destruct (init_returns (PList l1) l1 d shape n items b rest s eq_refl
              H1 Hacc) as [-> Hsh].
  cbn [fst]. eexists. split; [reflexivity|]. split; [reflexivity|].
  exact Hsh.
Qed.

(** C7 at two copies of the default configuration, in two list objects
    of their own. *)
Lemma C7_construction_deterministic_witness :
  let s : store := <[2%positive := groups]>
                     (<[3%positive := groups]> store_at_import) in
  (2 <> 3)%positive /\
  s !! 2%positive = Some groups /\
  s !! 3%positive = Some groups /\
  library_accepts (removelast groups) (BlockSpec 64 true)
    (PFloat (1 # 2)) 1000 /\
  let run1 := __init__ (PList 2) (PFloat (1 # 2)) [224; 224; 3] 1000 s in
  let run2 :=
    __init__ (PList 3) (PFloat (1 # 2)) [224; 224; 3] 1000 (snd run1) in
  fst run1 = fst run2 /\
  (forall (s' : store) l',
      s' !! l' = Some groups ->
      fst (__init__ (PList l') (PFloat (1 # 2)) [224; 224; 3] 1000 s')
      = fst run1) /\
  exists m, fst run1 = Ok (mkInstance (Some m)) /\
            fst run2 = Ok (mkInstance (Some m)) /\
            shape_of (outputs m) = Some [1000].
Proof.
  intros s.
  assert (Hne : (2 <> 3)%positive) by discriminate.
  assert (H2 : s !! 2%positive = Some groups) by reflexivity.
  assert (H3 : s !! 3%positive = Some groups) by reflexivity.
  assert (Hacc : library_accepts (removelast groups) (BlockSpec 64 true)
                   (PFloat (1 # 2)) 1000).
  { split; [cbn; lia|]. split; [by eexists|]. by split. }
  split; [exact Hne|]. split; [exact H2|]. split; [exact H3|].
  split; [exact Hacc|].
  destruct (C7_construction_deterministic 2 3 groups (PFloat (1 # 2))
              [224; 224; 3] 1000 s Hne H2 H3) as (Heq & Hany & Hret).
  split; [exact Heq|]. split; [exact Hany|].
  exact (Hret (removelast groups) (BlockSpec 64 true) [] eq_refl Hacc).
Defined.

(** C8: called without a ['dropout'] metaparameter, [learner] never
    returns: the fallback reads the class attribute [dropout], which
    the class does not define, and raises [AttributeError] (after the
    [KeyError] for ['groups'], when that is missing as well).  The
    store is left as it was. *)
Theorem C8_learner_requires_dropout x (mp : gmap string pyval) s :
  mp !! "dropout" = None ->
  class_dict !! "dropout" = None /\
  exists e,
    learner x mp s = (Raise e, s) /\
    (is_Some (mp !! "groups") -> e = AttributeError "dropout") /\
    (mp !! "groups" = None -> e = KeyError "groups").
Proof.
  intros Hd. split; [reflexivity|].
  unfold learner, bind, lift, getitem. rewrite Hd, class_dropout.
  destruct (mp !! "groups") as [g|].
  - eexists. split; [reflexivity|]. split; [done|]. done.
  - eexists. split; [reflexivity|]. split; [|done]. by intros [? ?].
Qed.

(** C8 at [learner(x, groups=SqueezeNetBypass.groups)] on the stem's
    output. *)
Lemma C8_learner_requires_dropout_witness :
  ({[ "groups" := PList groups_ref ]} : gmap string pyval) !! "dropout"
  = None /\
  class_dict !! "dropout" = None /\
  exists e,
    learner (stem (Input [224; 224; 3]))
      {[ "groups" := PList groups_ref ]} store_at_import
    = (Raise e, store_at_import) /\
    (is_Some (({[ "groups" := PList groups_ref ]} : gmap string pyval)
                !! "groups") -> e = AttributeError "dropout") /\
    (({[ "groups" := PList groups_ref ]} : gmap string pyval) !! "groups"
     = None -> e = KeyError "groups").
Proof.
  split; [reflexivity|].
  apply (C8_learner_requires_dropout _ {[ "groups" := PList groups_ref ]}).
  reflexivity.
Defined.

(** C9: for every block spec, each of the two expand branches of the
    fire block is a convolution with [4 * n_filters] filters, so on an
    input with a shape each branch has [4 * n_filters] channels and a
    block without bypass outputs a feature map with [8 * n_filters]
    channels. *)
Theorem C9_expand_branches_quadruple x w b :
  exists e1 e3,
    expand_branches (fire_block x w b) = Some (e1, e3) /\
    filters_of e1 = Some (4 * n_filters b) /\
    filters_of e3 = Some (4 * n_filters b) /\
    forall h wd c,
      shape_of x = Some [h; wd; c] ->
      0 < n_filters b ->
      channels e1 = Some (4 * n_filters b) /\
      channels e3 = Some (4 * n_filters b) /\
      (bypass b = false ->
       shape_of (fire_block x w b) = Some [h; wd; 8 * n_filters b] /\
       channels (fire_block x w b) = Some (8 * n_filters b)).
Proof.
  destruct b as [nf byp]. cbn [n_filters bypass] in *.
  set (i := default init_weights w).
  exists (Conv2D (nf * 4) (1, 1) 1 same "relu" i
            (Conv2D nf (1, 1) 1 same "relu" i x)),
         (Conv2D (nf * 4) (3, 3) 1 same "relu" i
            (Conv2D nf (1, 1) 1 same "relu" i x)).
  split; [by destruct w, byp|].
  split; [cbn; f_equal; lia|]. split; [cbn; f_equal; lia|].
  intros h wd c Hx Hn.
  pose proof (shape_conv_same x nf 1 1 "relu" i h wd c Hx Hn
                ltac:(lia) ltac:(lia)) as Hs.
  split; [|split].
  - unfold channels.
    rewrite (shape_conv_same _ (nf * 4) 1 1 _ _ h wd nf Hs) by lia.
    cbn. f_equal. lia.
  - unfold channels.
    rewrite (shape_conv_same _ (nf * 4) 3 3 _ _ h wd nf Hs) by lia.
    cbn. f_equal. lia.
  - intros ->. unfold channels.
    by rewrite (shape_fire_block_plain x w nf h wd c Hx Hn).
Qed.

(** C9 at the first fire block of the default graph: 16 filters in the
    squeeze layer, on the stem's 55 x 55 x 96 output. *)
Lemma C9_expand_branches_quadruple_witness :
  let x := stem (Input [224; 224; 3]) in
  let b := BlockSpec 16 false in
  shape_of x = Some [55; 55; 96] /\
  0 < n_filters b /\
  bypass b = false /\
  exists e1 e3,
    expand_branches (fire_block x None b) = Some (e1, e3) /\
    filters_of e1 = Some 64 /\
    filters_of e3 = Some 64 /\
    channels e1 = Some 64 /\
    channels e3 = Some 64 /\
    shape_of (fire_block x None b) = Some [55; 55; 128] /\
    channels (fire_block x None b) = Some 128.
Proof.
  intros x b.
  assert (Hx : shape_of x = Some [55; 55; 96]) by reflexivity.
  assert (Hn : 0 < n_filters b) by reflexivity.
  split; [exact Hx|]. split; [exact Hn|]. split; [reflexivity|].
  destruct (C9_expand_branches_quadruple x None b)
    as (e1 & e3 & He & H1 & H3 & Hsh).
  destruct (Hsh 55 55 96 Hx Hn) as (Hc1 & Hc3 & Hplain).
  destruct (Hplain eq_refl) as [Hs Hc].
  exists e1, e3. repeat split; assumption.
Defined.

(** C10: in the list bound to the class attribute [groups], read group
    after group, every block with [bypass] true comes right after a
    block with the same [n_filters]; and in the graph built from it
    the two operands of every [Add] have the same shape, so the same
    number of channels. *)
Theorem C10_default_bypass_blocks_match :
  (forall i b,
      concat groups !! i = Some b -> bypass b = true ->
      exists j p, i = S j /\ concat groups !! j = Some p /\
                  n_filters p = n_filters b) /\
  exists m s',
    __init__ PNone (PFloat (1 # 2)) [224; 224; 3] 1000 store_at_import
    = (Ok (mkInstance (Some m)), s') /\
    fire_blocks (outputs m) = concat groups /\
    shape_of (outputs m) = Some [1000] /\
    forall x1 x2,
      occurs (Add x1 x2) (outputs m) ->
      (exists sh, shape_of x1 = Some sh /\ shape_of x2 = Some sh) /\
      channels x1 = channels x2.
Proof.
  split.
  - intros i b Hi Hb.
    do 8 (destruct i as [|i];
          [injection Hi as <-; first [discriminate Hb | by eexists _, _]|]).
    discriminate Hi.
  - assert (Hacc : library_accepts (removelast groups) (BlockSpec 64 true)
                     (PFloat (1 # 2)) 1000).
    { split; [cbn; lia|]. split; [by eexists|]. by split. }
    destruct (init_returns PNone groups_ref (PFloat (1 # 2)) [224; 224; 3]
                1000 (removelast groups) (BlockSpec 64 true) []
                store_at_import eq_refl eq_refl Hacc) as [Hrun Hsh].
    eexists _, _. split; [exact Hrun|].
    cbn [outputs].
    split; [by rewrite fire_blocks_built|].
    split; [exact Hsh|].
    intros x1 x2 Ho.
    destruct (adds_agree_occurs x1 x2 _ Ho ltac:(vm_compute; reflexivity))
      as (sh & Ha & Hb).
    split; [eauto|]. unfold channels. by rewrite Ha, Hb.
Qed.

(** C10 at the second block of the class attribute, [{16, True}], which
    follows [{16, False}]. *)
Lemma C10_default_bypass_blocks_match_witness :
  concat groups !! 1%nat = Some (BlockSpec 16 true) /\
  bypass (BlockSpec 16 true) = true /\
  exists j p, 1%nat = S j /\ concat groups !! j = Some p /\
              n_filters p = n_filters (BlockSpec 16 true).
Proof.
  split; [reflexivity|]. split; [reflexivity|].
  exact (proj1 C10_default_bypass_blocks_match 1%nat (BlockSpec 16 true)
           eq_refl eq_refl).
Defined.

End Construction.

(** ** Further properties of the builders *)

Section Further.

Import SqueezeNetBypass.

Implicit Types (x : tensor) (w : option string) (b : block_spec)
  (blocks : group_spec) (items : list group_spec)
  (s : store) (l : loc) (d : pyval) (h wd c n : Z).

(** *** [stem] *)

Lemma shape_stem x h wd c :
  shape_of x = Some [h; wd; c] ->
  shape_of (stem x)
  = match out_size valid ((h + 2 - 1) / 2) 3 2,
          out_size valid ((wd + 2 - 1) / 2) 3 2 with
    | Some h', Some wd' => Some [h'; wd'; 96]
    | _, _ => None
    end.
Proof.
  intros Hx. unfold stem. rewrite shape_pool.
  change (shape_of (Conv2D 96 (7, 7) 2 same "relu" init_weights x))
    with (match shape_of x with
          | Some [h0; w0; _] =>
              Some [(h0 + 2 - 1) / 2; (w0 + 2 - 1) / 2; 96]
          | _ => None
          end).
  by rewrite Hx.
Qed.

(** The stem is accepted exactly on inputs with at least 5 entries along
    both spatial axes; its output has 96 channels whatever the input's
    channels are, and about a quarter of the entries along each spatial
    axis. *)
Theorem stem_quarters_resolution x h wd c :
  shape_of x = Some [h; wd; c] ->
  (is_Some (shape_of (stem x)) <-> 5 <= h /\ 5 <= wd) /\
  (forall sh,
      shape_of (stem x) = Some sh ->
      exists h' wd',
        sh = [h'; wd'; 96] /\
        h - 4 <= 4 * h' < h /\ wd - 4 <= 4 * wd' < wd).
Proof.
  intros Hx. rewrite (shape_stem x h wd c Hx).
  destruct (out_size valid ((h + 2 - 1) / 2) 3 2) as [h'|] eqn:Hh;
    destruct (out_size valid ((wd + 2 - 1) / 2) 3 2) as [wd'|] eqn:Hw.
  - apply out_size_pool in Hh as [Hh ->], Hw as [Hw ->]. split.
    + split; [intros _|by eexists].
      split; Z.div_mod_to_equations; lia.
    + intros sh [= <-]. eexists _, _. split; [reflexivity|].
      split; Z.div_mod_to_equations; lia.
  - split; [|done]. split; [by intros [? ?]|]. intros [_ Hwd].
    assert (3 <= (wd + 2 - 1) / 2) as H3 by (Z.div_mod_to_equations; lia).
    pose proof (proj2 (out_size_pool _ _) (conj H3 eq_refl)) as E.
    rewrite Hw in E. discriminate E.
  - split; [|done]. split; [by intros [? ?]|]. intros [Hh5 _].
    assert (3 <= (h + 2 - 1) / 2) as H3 by (Z.div_mod_to_equations; lia).
    pose proof (proj2 (out_size_pool _ _) (conj H3 eq_refl)) as E.
    rewrite Hh in E. discriminate E.
  - split; [|done]. split; [by intros [? ?]|]. intros [Hh5 _].
    assert (3 <= (h + 2 - 1) / 2) as H3 by (Z.div_mod_to_equations; lia).
    pose proof (proj2 (out_size_pool _ _) (conj H3 eq_refl)) as E.
    rewrite Hh in E. discriminate E.
Qed.

(** The stem on the input layer of the constructor: 224 x 224 x 3 in,
    55 x 55 x 96 out. *)
Lemma stem_quarters_resolution_witness :
  let x := Input [224; 224; 3] in
  shape_of x = Some [224; 224; 3] /\
  (is_Some (shape_of (stem x)) <-> 5 <= 224 /\ 5 <= 224) /\
  (forall sh,
      shape_of (stem x) = Some sh ->
      exists h' wd',
        sh = [h'; wd'; 96] /\
        224 - 4 <= 4 * h' < 224 /\ 224 - 4 <= 4 * wd' < 224).
Proof.
  intros x. split; [reflexivity|].
  exact (stem_quarters_resolution x 224 224 3 eq_refl).
Defined.

(** *** [fire_block] *)

(** On an input of shape (h, w, c) a fire block is accepted exactly when
    [n_filters] is positive and, for a bypass block, [c] is
    [8 * n_filters], the channels of the concatenation, or 1, which
    [Add] stretches; its output then has shape (h, w, 8 * n_filters),
    the spatial sizes of the input. *)
Theorem fire_block_accepted_iff x w b h wd c :
  shape_of x = Some [h; wd; c] ->
  0 < h -> 0 < wd -> 0 < c ->
  (is_Some (shape_of (fire_block x w b))
   <-> 0 < n_filters b /\
       (bypass b = true -> c = 8 * n_filters b \/ c = 1)) /\
  (forall sh,
      shape_of (fire_block x w b) = Some sh ->
      sh = [h; wd; 8 * n_filters b]).
Proof.
  intros Hx _ _ _. rewrite shape_fire_block, Hx. unfold block_fits.
  destruct (Z.ltb_spec 0 (n_filters b)) as [Hn|Hn]; cbn [andb].
  - destruct (bypass b); cbn [negb orb].
    + destruct (Z.eqb_spec c (8 * n_filters b)) as [Hc|Hc]; cbn [orb].
      * split; [|by intros sh [= <-]]. split; [|by eexists].
        intros _. split; [done|]. by left.
      * destruct (Z.eqb_spec c 1) as [Hc1|Hc1].
        -- split; [|by intros sh [= <-]]. split; [|by eexists].
           intros _. split; [done|]. by right.
        -- split; [|done]. split; [by intros [? ?]|]. intros [_ Hb].
           by destruct (Hb eq_refl).
    + split; [|by intros sh [= <-]]. split; [done|by eexists].
  - split; [|done]. split; [by intros [? ?]|]. lia.
Qed.

(** A bypass block with 2 filters on an input with one channel: the
    library stretches the input to the 16 channels of the
    concatenation. *)
Lemma fire_block_accepted_iff_witness :
  let x := Input [8; 8; 1] in
  shape_of x = Some [8; 8; 1] /\
  0 < 8 /\ 0 < 1 /\
  shape_of (fire_block x None (BlockSpec 2 true)) = Some [8; 8; 16].
Proof.
  intros x.
  assert (Hx : shape_of x = Some [8; 8; 1]) by reflexivity.
  assert (H8 : 0 < 8) by reflexivity.
  assert (H1 : 0 < 1) by reflexivity.
  split; [exact Hx|]. split; [exact H8|]. split; [exact H1|].
  destruct (fire_block_accepted_iff x None (BlockSpec 2 true) 8 8 1
              Hx H8 H8 H1) as [Hiff Hsh].
  destruct (proj2 Hiff) as [sh Hs].
  - split; [reflexivity|]. intros _. by right.
  - rewrite Hs. f_equal. exact (Hsh sh Hs).
Defined.

(** *** [group] *)

Lemma channels_after_positive blocks : forall c c',
  channels_after c blocks = Some c' ->
  Forall (fun b => 0 < n_filters b) blocks.
Proof.
  induction blocks as [|b blocks IH]; intros c c' Hc; [constructor|].
  cbn [channels_after] in Hc. unfold block_fits in Hc.
  destruct (Z.ltb_spec 0 (n_filters b)); [|done].
  constructor; [done|].
  destruct (negb (bypass b) || (c =? 8 * n_filters b) || (c =? 1)); [|done].
  cbn [andb] in Hc. exact (IH _ _ Hc).
Qed.

Lemma channels_after_snoc blocks b c c' :
  channels_after c (blocks ++ [b]) = Some c' -> c' = 8 * n_filters b.
Proof.
  rewrite channels_after_app.
  destruct (channels_after c blocks) as [c1|]; [|done].
  cbn [channels_after]. destruct (block_fits c1 b); [|done].
  by intros [= <-].
Qed.

(** Whenever a group with at least one block is accepted, its input has
    a shape (h, w, c) with at least 3 entries along both spatial axes,
    every block of the group has a positive [n_filters], and the output
    has the pooled sizes and [8 * n_filters] channels, [n_filters] that
    of the group's last block. *)
Theorem group_output_shape x w blocks b sh :
  shape_of (group x w (blocks ++ [b])) = Some sh ->
  exists h wd c,
    shape_of x = Some [h; wd; c] /\
    3 <= h /\ 3 <= wd /\
    Forall (fun b0 => 0 < n_filters b0) (blocks ++ [b]) /\
    sh = [(h - 3) / 2 + 1; (wd - 3) / 2 + 1; 8 * n_filters b].
Proof.
  intros Hsh.
  destruct (shape_of x) as [shx|] eqn:Hx;
    [|by rewrite shape_group_None in Hsh].
  assert (exists h wd c, shx = [h; wd; c]) as (h & wd & c & ->).
  { rewrite group_unfold, shape_pool in Hsh.
    destruct (blocks ++ [b]) as [|b0 bs] eqn:Hbs;
      [by destruct blocks|].
    change (blocks_of x (Some (default init_weights w)) (b0 :: bs))
      with (blocks_of (fire_block x (Some (default init_weights w)) b0)
              (Some (default init_weights w)) bs) in Hsh.
    pose proof (shape_fire_block x (Some (default init_weights w)) b0) as Hf.
    rewrite Hx in Hf.
    destruct shx as [|h [|wd [|c [|]]]];
      try (rewrite shape_blocks_of_None in Hsh by done; done).
    by eexists _, _, _. }
  rewrite (shape_group x w _ h wd c Hx) in Hsh.
  destruct (channels_after c (blocks ++ [b])) as [c'|] eqn:Hc; [|done].
  destruct (out_size valid h 3 2) as [h'|] eqn:Hh; [|done].
  destruct (out_size valid wd 3 2) as [wd'|] eqn:Hw; [|done].
  injection Hsh as <-.
  apply out_size_pool in Hh as [Hh ->], Hw as [Hw ->].
  exists h, wd, c. split; [done|]. split; [done|]. split; [done|].
  split; [by eapply channels_after_positive|].
  by rewrite (channels_after_snoc _ _ _ _ Hc).
Qed.

(** The first group of the class attribute on the stem's output. *)
Lemma group_output_shape_witness :
  let x := stem (Input [224; 224; 3]) in
  shape_of (group x None
              ([ BlockSpec 16 false; BlockSpec 16 true ]
               ++ [BlockSpec 32 false]))
  = Some [27; 27; 256] /\
  exists h wd c,
    shape_of x = Some [h; wd; c] /\
    3 <= h /\ 3 <= wd /\
    Forall (fun b0 => 0 < n_filters b0)
      ([ BlockSpec 16 false; BlockSpec 16 true ] ++ [BlockSpec 32 false]) /\
    [27; 27; 256] = [(h - 3) / 2 + 1; (wd - 3) / 2 + 1; 8 * 32].
Proof.
  intros x.
  assert (Hs : shape_of (group x None
                 ([ BlockSpec 16 false; BlockSpec 16 true ]
                  ++ [BlockSpec 32 false])) = Some [27; 27; 256])
    by (vm_compute; reflexivity).
  split; [exact Hs|].
  exact (group_output_shape x None _ _ _ Hs).
Defined.

(** *** [classifier] *)

(** The classifier is accepted exactly on inputs of shape (h, w, c) and
    with a positive [n_classes]; its output then has [n_classes]
    entries, whatever h, w and c are. *)
Theorem classifier_accepted_iff x n sh :
  shape_of (classifier x n) = Some sh
  <-> (exists h wd c, shape_of x = Some [h; wd; c]) /\ 0 < n /\ sh = [n].
Proof.
  rewrite shape_classifier_eq.
  destruct (shape_of x) as [[|h [|wd [|c [|]]]]|];
    try (split; [done|by intros [(? & ? & ? & [=]) _]]).
  destruct (Z.ltb_spec 0 n) as [Hn|Hn].
  - split.
    + intros [= <-]. split; [by eexists _, _, _|done].
    + by intros (_ & _ & ->).
  - split; [done|]. intros (_ & ? & _). lia.
Qed.

(** *** The whole model *)

(** For a configuration whose last group has a first block: when the
    host library accepts every layer call, the constructor returns a
    model whose output has [n_classes] entries and whose graph holds the
    fire blocks of the groups before the last and the first block of the
    last; otherwise it raises, a [ValueError] when the dropout rate is a
    number.  Either way the list has lost its last group. *)
Theorem construction_accepted_iff l items b (rest : group_spec) d
    (shape : list Z) n s :
  s !! l = Some (items ++ [b :: rest]) ->
  (library_accepts items b d n ->
   exists m,
     __init__ (PList l) d shape n s
     = (Ok (mkInstance (Some m)), <[l := items]> s) /\
     shape_of (outputs m) = Some [n] /\
     fire_blocks (outputs m) = concat items ++ [b]) /\
  (~ library_accepts items b d n ->
   exists e,
     __init__ (PList l) d shape n s = (Raise e, <[l := items]> s) /\
     (e = ValueError \/ e = TypeError) /\
     (forall r, d = PFloat r -> e = ValueError)) /\
  <[l := items]> s !! l = Some items.
Proof.
  intros Hl. split; [|split].
  - intros Hacc.
    destruct (init_returns (PList l) l d shape n items b rest s eq_refl
                Hl Hacc) as [-> Hsh].
    eexists. split; [reflexivity|]. cbn [outputs].
    split; [exact Hsh|apply fire_blocks_built].
  - intros Hacc.
    exact (init_raises (PList l) l d shape n items b rest s eq_refl Hl Hacc).
  - apply lookup_insert_eq.
Qed.

(** [SqueezeNetBypass(groups=[[{16, True}]])]: the library refuses to add
    the 96 channels of the stem to the 128 of the block. *)
Lemma construction_accepted_iff_witness :
  let s : store := <[2%positive := [] ++ [[BlockSpec 16 true]]]>
                     store_at_import in
  s !! 2%positive = Some ([] ++ [[BlockSpec 16 true]]) /\
  ~ library_accepts [] (BlockSpec 16 true) (PFloat (1 # 2)) 1000 /\
  exists e,
    __init__ (PList 2) (PFloat (1 # 2)) [224; 224; 3] 1000 s
    = (Raise e, <[2%positive := []]> s) /\
    (e = ValueError \/ e = TypeError) /\
    (forall r, PFloat (1 # 2) = PFloat r -> e = ValueError).
Proof.
  intros s.
  assert (Hl : s !! 2%positive = Some ([] ++ [[BlockSpec 16 true]]))
    by reflexivity.
  assert (Hacc : ~ library_accepts [] (BlockSpec 16 true)
                     (PFloat (1 # 2)) 1000).
  { intros (_ & [c Hc] & _). discriminate Hc. }
  split; [exact Hl|]. split; [exact Hacc|].
  exact (proj1 (proj2 (construction_accepted_iff 2 [] (BlockSpec 16 true) []
                         (PFloat (1 # 2)) [224; 224; 3] 1000 s Hl)) Hacc).
Defined.

(** *** Degenerate configurations *)

(** On an empty list of groups the constructor raises [IndexError], the
    [pop] from an empty list, and leaves the store as it was; this holds
    for a list passed as [groups] and, with [groups=None], for the list
    of the class attribute. *)
Theorem construction_on_empty_list groups l d (shape : list Z) n s :
  groups_arg groups = PList l ->
  s !! l = Some [] ->
  __init__ groups d shape n s = (Raise IndexError, s) /\
  learner (stem (Input [224; 224; 3]))
    {[ "groups" := PList l; "dropout" := d ]} s = (Raise IndexError, s).
Proof.
  intros Hg Hl. split.
  - by apply (init_empty groups l).
  - by apply (learner_empty _ _ l d s
                (kwargs_groups _ _) (kwargs_dropout _ _)).
Qed.

(** [SqueezeNetBypass(groups=[])]. *)
Lemma construction_on_empty_list_witness :
  let s : store := <[2%positive := []]> store_at_import in
  groups_arg (PList 2) = PList 2 /\
  s !! 2%positive = Some [] /\
  __init__ (PList 2) (PFloat (1 # 2)) [224; 224; 3] 1000 s
  = (Raise IndexError, s) /\
  learner (stem (Input [224; 224; 3]))
    {[ "groups" := PList 2; "dropout" := PFloat (1 # 2) ]} s
  = (Raise IndexError, s).
Proof.
  intros s. split; [reflexivity|].
  assert (Hl : s !! 2%positive = Some []) by reflexivity.
  split; [exact Hl|].
  exact (construction_on_empty_list (PList 2) 2 (PFloat (1 # 2))
           [224; 224; 3] 1000 s eq_refl Hl).
Defined.

(** When the last group is empty the list loses it all the same, and
    no model is built: the constructor raises [IndexError] at [last[0]]
    when the library has accepted the groups before, and [ValueError]
    in the loop over them otherwise. *)
Theorem construction_on_empty_last_group groups l items d (shape : list Z)
    n s :
  groups_arg groups = PList l ->
  s !! l = Some (items ++ [[]]) ->
  ((length items <= 4)%nat /\ is_Some (channels_after 96 (concat items)) ->
   __init__ groups d shape n s = (Raise IndexError, <[l := items]> s)) /\
  (~ ((length items <= 4)%nat /\
      is_Some (channels_after 96 (concat items))) ->
   __init__ groups d shape n s = (Raise ValueError, <[l := items]> s)) /\
  <[l := items]> s !! l = Some items /\
  <[l := items]> s !! l <> s !! l.
Proof.
  intros Hg Hl.
  rewrite (init_run groups l d shape n items [] s Hg Hl), built_empty_last.
  pose proof (loop_accepted_iff items) as Hloop.
  split; [|split; [|split]].
  - intros Hacc. by destruct (proj2 Hloop Hacc) as [sh ->].
  - intros Hacc.
    destruct (shape_of (groups_of _ items)) eqn:Hsh; [|done].
    destruct Hacc. apply Hloop. by eexists.
  - apply lookup_insert_eq.
  - rewrite lookup_insert_eq, Hl. intros [= Heq].
    apply (f_equal length) in Heq. rewrite length_app in Heq.
    cbn in Heq. lia.
Qed.

(** [SqueezeNetBypass(groups=[[{16, False}], []])]. *)
Lemma construction_on_empty_last_group_witness :
  let s : store :=
    <[2%positive := [[BlockSpec 16 false]] ++ [[]]]> store_at_import in
  groups_arg (PList 2) = PList 2 /\
  s !! 2%positive = Some ([[BlockSpec 16 false]] ++ [[]]) /\
  ((length [[BlockSpec 16 false]] <= 4)%nat /\
   is_Some (channels_after 96 (concat [[BlockSpec 16 false]]))) /\
  __init__ (PList 2) (PFloat (1 # 2)) [224; 224; 3] 1000 s
  = (Raise IndexError, <[2%positive := [[BlockSpec 16 false]]]> s).
Proof.
  intros s. split; [reflexivity|].
  assert (Hl : s !! 2%positive = Some ([[BlockSpec 16 false]] ++ [[]]))
    by reflexivity.
  assert (Hacc : (length [[BlockSpec 16 false]] <= 4)%nat /\
                 is_Some (channels_after 96 (concat [[BlockSpec 16 false]])))
    by (split; [cbn; lia|by eexists]).
  split; [exact Hl|]. split; [exact Hacc|].
  exact (proj1 (construction_on_empty_last_group (PList 2) 2
                  [[BlockSpec 16 false]] (PFloat (1 # 2)) [224; 224; 3]
                  1000 s eq_refl Hl) Hacc).
Defined.

(** *** Arguments of [learner] *)

(** [learner] raises before it writes to the store when ['groups'] is
    missing ([KeyError], whether or not ['dropout'] is passed) and when
    ['groups'] is [None], a number or a string, none of which has a
    [pop] ([AttributeError]); the constructor raises the same way on a
    [groups] argument that is a number or a string. *)
Theorem learner_argument_errors x (mp : gmap string pyval) s :
  (mp !! "groups" = None ->
   learner x mp s = (Raise (KeyError "groups"), s)) /\
  (forall g,
      mp !! "groups" = Some g -> is_Some (mp !! "dropout") ->
      g = PNone \/ (exists r, g = PFloat r) \/ (exists t, g = PStr t) ->
      learner x mp s = (Raise (AttributeError "pop"), s)) /\
  (forall g d (shape : list Z) n,
      (exists r, g = PFloat r) \/ (exists t, g = PStr t) ->
      __init__ g d shape n s = (Raise (AttributeError "pop"), s)).
Proof.
  split; [|split].
  - intros Hg. unfold learner, bind, lift, getitem. by rewrite Hg.
  - intros g Hg Hd Hkind. apply (learner_not_list x mp g s Hg Hd).
    intros l ->. by destruct Hkind as [|[[? ?]|[? ?]]].
  - intros g d shape n Hkind. rewrite init_unfold.
    assert (groups_arg g = g) as -> by (by destruct Hkind as [[? ->]|[? ->]]).
    rewrite (learner_not_list _ _ g s (kwargs_groups _ _)); [done| |].
    + rewrite kwargs_dropout. by eexists.
    + intros l ->. by destruct Hkind as [[? ?]|[? ?]].
Qed.

(** [learner(x, dropout=0.5)], [learner(x, groups=0.5, dropout=0.5)] and
    [SqueezeNetBypass(groups='default')]. *)
Lemma learner_argument_errors_witness :
  let x := stem (Input [224; 224; 3]) in
  let s : store := store_at_import in
  learner x {[ "dropout" := PFloat (1 # 2) ]} s
  = (Raise (KeyError "groups"), s) /\
  learner x {[ "groups" := PFloat (1 # 2); "dropout" := PFloat (1 # 2) ]} s
  = (Raise (AttributeError "pop"), s) /\
  __init__ (PStr "default") (PFloat (1 # 2)) [224; 224; 3] 1000 s
  = (Raise (AttributeError "pop"), s).
Proof.
  intros x s. split; [|split].
  - apply (proj1 (learner_argument_errors x _ s)). reflexivity.
  - apply (proj1 (proj2 (learner_argument_errors x _ s)) (PFloat (1 # 2))).
    + reflexivity.
    + by eexists.
    + right. left. by eexists.
  - apply (proj2 (proj2 (learner_argument_errors x ∅ s))).
    right. by eexists.
Defined.

(** *** The store across constructions *)

Lemma learner_frame x (mp : gmap string pyval) s l' :
  mp !! "groups" <> Some (PList l') ->
  snd (learner x mp s) !! l' = s !! l'.
Proof.
  intros Hne. unfold learner, bind, lift, getitem, ret.
  destruct (mp !! "groups") as [g|]; [|done].
  destruct (mp !! "dropout") as [d|]; [|by rewrite class_dropout].
  destruct g as [|r|t|l]; try done.
  assert (l <> l') by congruence.
  unfold pop, iter. destruct (s !! l) as [cfg|] eqn:Hl; [|done].
  destruct (last cfg) as [g|]; [|done].
  rewrite lookup_insert_eq.
  destruct (for_groups x (removelast cfg)) as [x1|e];
    [|cbn [snd]; by rewrite lookup_insert_ne].
  destruct (first g) as [b|e]; [|cbn [snd]; by rewrite lookup_insert_ne].
  destruct (accepted (fire_block x1 None b)) as [x2|e];
    [|cbn [snd]; by rewrite lookup_insert_ne].
  destruct (accepted (Dropout d x2));
    cbn [snd]; by rewrite lookup_insert_ne.
Qed.

(** A construction writes to no list object but the one its [groups]
    argument denotes, whether it returns or raises: with a list of its
    own passed as [groups], the list of the class attribute and every
    other list stay as they were. *)
Theorem construction_frame groups d (shape : list Z) n s l' :
  groups_arg groups <> PList l' ->
  snd (__init__ groups d shape n s) !! l' = s !! l'.
Proof.
  intros Hne. rewrite init_unfold.
  pose proof (learner_frame (stem (Input [224; 224; 3]))
                {[ "groups" := groups_arg groups; "dropout" := d ]} s l')
    as Hf.
  rewrite kwargs_groups in Hf.
  destruct (learner _ _ s) as [[y|e] s1]; [|apply Hf; congruence].
  destruct (accepted (classifier y n)); apply Hf; congruence.
Qed.

(** A construction from a list of its own leaves the list of the class
    attribute alone. *)
Lemma construction_frame_witness :
  let s : store := <[2%positive := groups]> store_at_import in
  groups_arg (PList 2) <> PList groups_ref /\
  snd (__init__ (PList 2) (PFloat (1 # 2)) [224; 224; 3] 1000 s)
    !! groups_ref
  = s !! groups_ref.
Proof.
  intros s.
  assert (Hne : groups_arg (PList 2) <> PList groups_ref) by discriminate.
  split; [exact Hne|].
  exact (construction_frame (PList 2) (PFloat (1 # 2)) [224; 224; 3] 1000
           s groups_ref Hne).
Defined.


Lemma built_returned_iff items (g : group_spec) d n :
  returned (built items g d n) = true
  <-> exists b rest, g = b :: rest /\ library_accepts items b d n.
Proof.
  split.
  - destruct (built items g d n) as [self|e] eqn:Hb; [intros _|done].
    destruct (built_inv items g d n self Hb) as (b & rest & -> & Hsh & _).
    exists b, rest. split; [done|].
    apply (proj1 (graph_accepted_iff items b d n)). by eexists.
  - intros (b & rest & -> & Hacc).
    destruct (proj2 (graph_accepted_iff items b d n) Hacc) as [sh Hsh].
    by rewrite (built_returns items b rest d n sh Hsh).
Qed.

(** A list of [k] groups is used up by [k] constructions, whatever they
    return or raise: each of them takes the last group off the list,
    they leave the list empty and every other list as it was, and the next
    construction raises [IndexError].  All [k] of them return a model
    exactly when every group has a first block and the library accepts
    the groups before it followed by that block. *)
Theorem constructions_exhaust_list cfg : forall l d (shape : list Z) n s,
  s !! l = Some cfg ->
  exists rs s',
    constructions (length cfg) (PList l) d shape n s = (rs, s') /\
    length rs = length cfg /\
    (forallb returned rs = true
     <-> forall items (g : group_spec) tail,
           cfg = items ++ g :: tail ->
           exists b rest, g = b :: rest /\ library_accepts items b d n) /\
    s' !! l = Some [] /\
    (forall l', l' <> l -> s' !! l' = s !! l') /\
    __init__ (PList l) d shape n s' = (Raise IndexError, s').
Proof.
  induction cfg as [|g items IH] using rev_ind; intros l d shape n s Hl.
  - exists [], s. split; [done|]. split; [done|]. split.
    { split; [|done]. intros _ [|? ?] ? ? ?; done. }
    split; [done|]. split; [done|].
    by apply (init_empty (PList l) l).
  - rewrite length_app. cbn [length]. rewrite Nat.add_1_r.
    cbn [constructions].
    rewrite (init_run (PList l) l d shape n items g s eq_refl Hl).
    destruct (IH l d shape n (<[l := items]> s) (lookup_insert_eq _ _ _))
      as (rs & s' & Hrun & Hlen & Hok & Hs' & Hfr & Hnext).
    rewrite Hrun. eexists _, s'. split; [reflexivity|].
    split; [by cbn; rewrite Hlen|]. split.
    { cbn [forallb]. rewrite andb_true_iff, built_returned_iff, Hok.
      split.
      - intros [Hg Hitems] items0 g0 tail Heq.
        destruct tail as [|g1 tail _] using rev_ind.
        + apply app_inj_tail in Heq as [<- <-]. exact Hg.
        + rewrite app_comm_cons, app_assoc in Heq.
          apply app_inj_tail in Heq as [-> _].
          by apply (Hitems items0 g0 tail).
      - intros Hall. split.
        + by apply (Hall items g []).
        + intros items0 g0 tail ->. apply (Hall items0 g0 (tail ++ [g])).
          by rewrite <- app_assoc. }
    split; [done|]. split; [|done].
    intros l' Hl'. rewrite (Hfr l' Hl'). by rewrite lookup_insert_ne.
Qed.

(** Seven constructions from a list of seven groups of one block: the
    list is used up, though the library refuses the first constructions,
    which pool the 55 x 55 output of the stem more than four times. *)
Lemma constructions_exhaust_list_witness :
  let cfg : list group_spec := repeat [BlockSpec 16 false] 7 in
  let s : store := <[2%positive := cfg]> store_at_import in
  s !! 2%positive = Some cfg /\
  exists rs s',
    constructions 7 (PList 2) (PFloat (1 # 2)) [224; 224; 3] 1000 s
    = (rs, s') /\
    length rs = 7%nat /\
    forallb returned rs <> true /\
    s' !! 2%positive = Some [] /\
    (forall l', l' <> 2%positive -> s' !! l' = s !! l') /\
    __init__ (PList 2) (PFloat (1 # 2)) [224; 224; 3] 1000 s'
    = (Raise IndexError, s').
Proof.
  intros cfg s.
  assert (Hl : s !! 2%positive = Some cfg) by reflexivity.
  split; [exact Hl|].
  destruct (constructions_exhaust_list cfg 2 (PFloat (1 # 2))
              [224; 224; 3] 1000 s Hl)
    as (rs & s' & Hrun & Hlen & Hok & Hs' & Hfr & Hnext).
  exists rs, s'. split; [exact Hrun|]. split; [exact Hlen|].
  split; [|split; [exact Hs'|split; [exact Hfr|exact Hnext]]].
  intros Hall.
  destruct (proj1 Hok Hall (repeat [BlockSpec 16 false] 6)
              [BlockSpec 16 false] [] eq_refl)
    as (b & rest & _ & Hk & _).
  cbn in Hk. lia.
Defined.

(** *** Pooling and dropout layers of the model *)

(** A model built from a configuration of [k] groups that the library
    accepts has [k] pooling layers between its input and its output, the
    one of the stem and one after every group but the last, which is
    followed by none; and one dropout layer, with the rate the
    constructor was handed. *)
Theorem model_poolings_and_dropout l items b (rest : group_spec) d
    (shape : list Z) n s :
  s !! l = Some (items ++ [b :: rest]) ->
  library_accepts items b d n ->
  exists m,
    __init__ (PList l) d shape n s
    = (Ok (mkInstance (Some m)), <[l := items]> s) /\
    poolings (outputs m) = length (items ++ [b :: rest]) /\
    dropouts (outputs m) = [d].
Proof.
  intros Hl Hacc.
  destruct (init_returns (PList l) l d shape n items b rest s eq_refl
              Hl Hacc) as [-> _].
  eexists. split; [reflexivity|].
  cbn [outputs]. unfold graph_of, classifier. cbn [poolings dropouts].
  rewrite poolings_fire_block, dropouts_fire_block.
  rewrite poolings_groups_of, dropouts_groups_of.
  split; [|done].
  rewrite length_app. cbn. lia.
Qed.

(** The configuration of the class attribute: three groups, three
    pooling layers. *)
Lemma model_poolings_and_dropout_witness :
  let s : store := <[2%positive := groups]> store_at_import in
  s !! 2%positive = Some (removelast groups ++ [[BlockSpec 64 true]]) /\
  library_accepts (removelast groups) (BlockSpec 64 true)
    (PFloat (1 # 2)) 1000 /\
  exists m,
    __init__ (PList 2) (PFloat (1 # 2)) [224; 224; 3] 1000 s
    = (Ok (mkInstance (Some m)), <[2%positive := removelast groups]> s) /\
    poolings (outputs m)
    = length (removelast groups ++ [[BlockSpec 64 true]]) /\
    dropouts (outputs m) = [PFloat (1 # 2)].
Proof.
  intros s.
  assert (Hl : s !! 2%positive
               = Some (removelast groups ++ [[BlockSpec 64 true]]))
    by reflexivity.
  assert (Hacc : library_accepts (removelast groups) (BlockSpec 64 true)
                   (PFloat (1 # 2)) 1000).
  { split; [cbn; lia|]. split; [by eexists|]. split; reflexivity. }
  split; [exact Hl|]. split; [exact Hacc|].
  exact (model_poolings_and_dropout 2 (removelast groups)
           (BlockSpec 64 true) [] (PFloat (1 # 2)) [224; 224; 3] 1000 s
           Hl Hacc).
Defined.

(** *** Bypass blocks after blocks with the same filters *)

Lemma channels_after_when_bypass_matches blocks : forall c prev,
  (forall n0, prev = Some n0 -> c = 8 * n0) ->
  Forall (fun b0 => 0 < n_filters b0) blocks ->
  bypass_after_equal prev blocks = true ->
  is_Some (channels_after c blocks).
Proof.
  induction blocks as [|b blocks IH]; intros c prev Hprev Hpos Hby;
    [by eexists|].
  apply Forall_cons in Hpos as [Hb Hpos].
  cbn [bypass_after_equal] in Hby.
  apply andb_prop in Hby as [Hfit Hrest].
  cbn [channels_after]. unfold block_fits.
  destruct (Z.ltb_spec 0 (n_filters b)); [|lia]. cbn [andb].
  assert (negb (bypass b) || (c =? 8 * n_filters b) || (c =? 1) = true)
    as ->.
  { destruct (bypass b); [|done]. cbn [negb orb] in *.
    destruct prev as [n0|]; [|done].
    apply Z.eqb_eq in Hfit.
    assert ((c =? 8 * n_filters b) = true) as ->; [|done].
    apply Z.eqb_eq. rewrite (Hprev n0 eq_refl). lia. }
  apply (IH _ (Some (n_filters b))); [|done..].
  by intros n0 [= <-].
Qed.

(** A configuration of at most five groups is accepted by the host
    library, and its model has [n_classes] outputs, whenever every
    [n_filters] is positive and every bypass block that is expanded
    comes right after a block with the same [n_filters] (the first
    block having no bypass), the dropout rate is a number between 0 and
    1 and [n_classes] is positive. *)
Theorem construction_accepted_when_bypass_matches l items b
    (rest : group_spec) d (shape : list Z) n s :
  s !! l = Some (items ++ [b :: rest]) ->
  (length items <= 4)%nat ->
  Forall (fun b0 => 0 < n_filters b0) (concat items ++ [b]) ->
  bypass_after_equal None (concat items ++ [b]) = true ->
  rate_ok d = true ->
  0 < n ->
  exists m,
    __init__ (PList l) d shape n s
    = (Ok (mkInstance (Some m)), <[l := items]> s) /\
    shape_of (outputs m) = Some [n].
Proof.
  intros Hl Hk Hpos Hby Hd Hn.
  assert (Hacc : library_accepts items b d n).
  { split; [done|]. split; [|done].
    by apply (channels_after_when_bypass_matches _ 96 None). }
  destruct (init_returns (PList l) l d shape n items b rest s eq_refl
              Hl Hacc) as [-> Hsh].
  eexists. split; [reflexivity|]. exact Hsh.
Qed.

(** The configuration of the class attribute. *)
Lemma construction_accepted_when_bypass_matches_witness :
  let s : store := <[2%positive := groups]> store_at_import in
  s !! 2%positive = Some (removelast groups ++ [[BlockSpec 64 true]]) /\
  (length (removelast groups) <= 4)%nat /\
  Forall (fun b0 => 0 < n_filters b0)
    (concat (removelast groups) ++ [BlockSpec 64 true]) /\
  bypass_after_equal None (concat (removelast groups) ++ [BlockSpec 64 true])
  = true /\
  rate_ok (PFloat (1 # 2)) = true /\
  0 < 1000 /\
  exists m,
    __init__ (PList 2) (PFloat (1 # 2)) [224; 224; 3] 1000 s
    = (Ok (mkInstance (Some m)), <[2%positive := removelast groups]> s) /\
    shape_of (outputs m) = Some [1000].
Proof.
  intros s.
  assert (Hl : s !! 2%positive
               = Some (removelast groups ++ [[BlockSpec 64 true]]))
    by reflexivity.
  assert (Hk : (length (removelast groups) <= 4)%nat) by (cbn; lia).
  assert (Hpos : Forall (fun b0 => 0 < n_filters b0)
                   (concat (removelast groups) ++ [BlockSpec 64 true]))
    by (repeat constructor).
  assert (Hby : bypass_after_equal None
                  (concat (removelast groups) ++ [BlockSpec 64 true]) = true)
    by reflexivity.
  assert (Hd : rate_ok (PFloat (1 # 2)) = true) by reflexivity.
  assert (Hn : 0 < 1000) by reflexivity.
  split; [exact Hl|]. split; [exact Hk|]. split; [exact Hpos|].
  split; [exact Hby|]. split; [exact Hd|]. split; [exact Hn|].
  exact (construction_accepted_when_bypass_matches 2 (removelast groups)
           (BlockSpec 64 true) [] (PFloat (1 # 2)) [224; 224; 3] 1000 s
           Hl Hk Hpos Hby Hd Hn).
Defined.


End Further.
